(** * Ride matching and real-time dispatch: a shallow embedding

    The development follows the shared layer, the backend services and the
    browser client of the repository:

    - [Utils]            the shared layer ([/opt/utils]): [validateToken];
    - [RideService]      [requestRide], [acceptRide], [updateRideStatus], and
                         ([Race]) [acceptRide] calls that overlap;
    - [DriverService]    [updateAvailability], [getDriverProfile],
                         [getNearbyDrivers] and the grid "geohash";
    - [WebSocketService] [connect], [disconnect], [message] and the fanout;
    - [Registration]     [registerDriver] of the driver service;
    - [PaymentService]   [calculateFare];
    - [WebSocketClient]  the reconnection logic of the browser's socket.

    Modelling conventions.

    - A DynamoDB table is a finite map from its hash key to the item
      ([gmap string _]); [dbPut] is [insert], [dbGet] is lookup, a query on a
      secondary index is a filter over the items of the table.
    - JavaScript numbers that are compared, floored or used as grid
      coordinates are rationals ([Q]: every finite double is one).  The
      haversine distance goes through [Math.sin], [Math.cos], [Math.sqrt] and
      [Math.atan2]; these are taken over the real numbers, so distances and
      fares live in [R].  Rounding of IEEE doubles is not modelled, and
      where the code's arithmetic rounds, code and model can part: the code
      computes [(2 + 0.01) * 100] as [200.99999999999997] and floors it to
      cell 200 where the exact product is 201; for two nearly antipodal
      points its haversine term can exceed 1 in the last place, and the
      distance is then [NaN]; a sum of fare components can differ from the
      exact sum in the last place.  Statements about the grid, the distance
      and the fares are therefore kept to what does not depend on rounding,
      or are given at inputs where the two arithmetics agree.
    - [new Date().toISOString()] is a read of a clock that the caller of a
      handler supplies: [clock k] is the value of the k-th read made by the
      invocation.
    - The storage, event-bus and transport collaborators do not fail unless
      said otherwise; what a handler does when they throw (its [catch]
      branch, HTTP 500) is modelled only where the handler itself can reach
      it. *)

From Stdlib Require Import QArith Qround Reals Lra.
From Stdlib Require Import Sorted Ascii.
From stdpp Require Import gmap strings list fin_maps pretty.

Definition timestamp := string.

(** ** Geographic points

    [{ lat, lng, address }] for the two ends of a ride, [{ lat, lng }] for a
    driver position (no address). *)
Module Loc.
Record t := mk { lat : Q; lng : Q; address : option string }.
End Loc.

(** ** [Math] over the reals *)
Module JSMath.

(** [Math.atan2(y, x)]: the angle of the point [(x, y)]. *)
Definition atan2 (y x : R) : R :=
  if Rlt_dec 0 x then atan (y / x)
  else if Rlt_dec x 0 then
    (if Rle_dec 0 y then atan (y / x) + PI else atan (y / x) - PI)%R
  else if Rlt_dec 0 y then (PI / 2)%R
  else if Rlt_dec y 0 then (- (PI / 2))%R
  else 0%R.

(** JavaScript truthiness of a number: everything but [0] (and [NaN]). *)
Definition truthyQ (q : Q) : bool := negb (Qeq_bool q 0).

Definition truthyR (r : R) : bool := if Req_EM_T r 0 then false else true.

Definition truthyS (s : string) : bool := negb (String.eqb s "").

(** A value that may be [null] or [undefined], kept when it is a truthy
    string. *)
Definition truthyId (o : option string) : option string :=
  match o with
  | Some d => if truthyS d then Some d else None
  | None => None
  end.

End JSMath.

(** [calculateDistance]: the haversine formula.  The ride service and the
    driver service each carry their own textually identical copy; one
    definition serves both.  It is the formula over the reals; the code
    evaluates it in doubles, where the term [a] can come out as
    [1.0000000000000002] for two nearly antipodal points and the result is
    then [NaN]. *)
Definition calculateDistance (lat1 lon1 lat2 lon2 : Q) : R :=
  let R_earth := 6371%R in
  let dLat := ((Q2R lat2 - Q2R lat1) * PI / 180)%R in
  let dLon := ((Q2R lon2 - Q2R lon1) * PI / 180)%R in
  let a := (sin (dLat / 2) * sin (dLat / 2) +
            cos (Q2R lat1 * PI / 180) * cos (Q2R lat2 * PI / 180) *
            sin (dLon / 2) * sin (dLon / 2))%R in
  let c := (2 * JSMath.atan2 (sqrt a) (sqrt (1 - a)))%R in
  (R_earth * c)%R.

Arguments calculateDistance : simpl never.

(** ** The shared layer *)
Module Utils.

(** A bearer token.  [jwt.decode] of the [jsonwebtoken] package splits the
    compact serialisation and returns the payload "without verifying if
    the signature is valid"; a string that is not a JWT decodes to [null].
    The token is kept in parsed form: header algorithm, payload claims and
    the signature segment (empty for an unsigned token). *)
Record claims := mkClaims {
  sub : option string;
  email : option string;
  iss : option string;
  aud : option string;
  exp : option Z
}.

Inductive token :=
| Malformed
| Jwt (alg : string) (payload : claims) (signature : string).

Definition jwt_decode (tk : token) : option claims :=
  match tk with
  | Malformed => None
  | Jwt _ payload _ => Some payload
  end.

(** [validateToken]: [None] stands for the thrown
    ['Token validation failed']. *)
Definition validateToken (tk : token) : option claims :=
  match jwt_decode tk with
  | None => None
  | Some decoded =>
      match sub decoded with
      | Some s => if JSMath.truthyS s then Some decoded else None
      | None => None
      end
  end.

(** The first four lines of every authenticated handler:
    read the [Authorization] header, strip ['Bearer '], validate, take
    [sub].  [None] is a throw (a missing header makes [.replace] a
    [TypeError]). *)
Definition callerId (authorization : option token) : option string :=
  match authorization with
  | None => None
  | Some tk =>
      match validateToken tk with
      | None => None
      | Some decoded => sub decoded
      end
  end.

End Utils.

(** ** Items of the three tables *)
Module Ride.
Record t := mk {
  rideId : string;
  userId : string;
  driverId : option string;
  status : string;
  rideType : string;
  pickupLocation : Loc.t;
  dropoffLocation : Loc.t;
  estimatedDistance : R;
  estimatedFare : R;
  actualFare : option R;
  createdAt : timestamp;
  matchedAt : option timestamp;
  startedAt : option timestamp;
  completedAt : option timestamp;
  updatedAt : option timestamp
}.
End Ride.

Module Driver.
Record vehicle := mkVehicle {
  make : string; model : string; year : option Z;
  licensePlate : string; color : string
}.

Record t := mk {
  driverId : string;
  userId : string;
  licenseNumber : string;
  vehicleInfo : vehicle;
  status : string;
  rating : Q;
  totalRides : Z;
  isVerified : bool;
  location : option Loc.t;
  locationHash : option string;
  createdAt : timestamp;
  isActive : bool;
  updatedAt : option timestamp
}.
End Driver.

(** Domain events handed to [publishEvent]. *)
Inductive event :=
| RideRequested (rideId userId : string) (pickup : Loc.t)
                (rideType : string) (estimatedFare : R)
| RideMatched (rideId driverId userId : string)
| RideStatusChanged (rideId status userId : string)
                    (driverId : option string) (location : option Loc.t)
| DriverAvailabilityChanged (driverId status : string)
                            (location : option Loc.t).

Record db := mkDb {
  rides : gmap string Ride.t;
  drivers : gmap string Driver.t;
  events : list event
}.

Definition with_rides (f : gmap string Ride.t → gmap string Ride.t) (s : db) : db :=
  mkDb (f (rides s)) (drivers s) (events s).

Definition with_drivers (f : gmap string Driver.t → gmap string Driver.t) (s : db) : db :=
  mkDb (rides s) (f (drivers s)) (events s).

Definition publishEvent (e : event) (s : db) : db :=
  mkDb (rides s) (drivers s) (events s ++ [e]).

(** ** The ride service *)
Module RideService.

Inductive body :=
| Error (error : string)
| ValidationFailed (details : string)
| RideCreated (rideId status : string) (estimatedFare estimatedDistance : R)
| RideAccepted (rideId userId : string) (pickupLocation dropoffLocation : Loc.t)
| Message (message : string).

Record response := createResponse { statusCode : nat; responseBody : body }.

Definition internalError : response :=
  createResponse 500 (Error "Internal server error").

(** The parsed request body of [requestRide]. *)
Record rideBody := mkRideBody {
  pickupLocation : Loc.t;
  dropoffLocation : Loc.t;
  rideType : option string
}.

Definition between (lo hi q : Q) : bool := Qle_bool lo q && Qle_bool q hi.

Definition nonEmpty (o : option string) : bool :=
  match o with
  | Some a => JSMath.truthyS a
  | None => false
  end.

Definition rideTypes : list string := ["standard"; "premium"; "pool"].

(** [schemas.ride.validate]: the keys are checked in schema order and the
    first failure is reported (its path stands for Joi's message); on success
    the value carries the defaulted [rideType]. *)
Definition validateLocation (path : string) (l : Loc.t) : option string :=
  if negb (between (-90) 90 (Loc.lat l)) then Some (path +:+ ".lat")
  else if negb (between (-180) 180 (Loc.lng l)) then Some (path +:+ ".lng")
  else if negb (nonEmpty (Loc.address l)) then Some (path +:+ ".address")
  else None.

Definition schemas_ride_validate (b : rideBody) : string + rideBody :=
  match validateLocation "pickupLocation" (pickupLocation b) with
  | Some e => inl e
  | None =>
      match validateLocation "dropoffLocation" (dropoffLocation b) with
      | Some e => inl e
      | None =>
          match rideType b with
          | None =>
              inr (mkRideBody (pickupLocation b) (dropoffLocation b) (Some "standard"))
          | Some ty =>
              if bool_decide (ty ∈ rideTypes) then inr b else inl "rideType"
          end
      end
  end.

Definition perKmRate (ty : string) : option R :=
  if String.eqb ty "standard" then Some (12 / 10)%R
  else if String.eqb ty "premium" then Some 2%R
  else if String.eqb ty "pool" then Some (8 / 10)%R
  else None.

Definition calculateEstimatedFare (distanceKm : R) (ty : string) : R :=
  let baseFare := (25 / 10)%R in
  (baseFare + distanceKm * default (12 / 10)%R (perKmRate ty))%R.

(** A query on [UserRidesIndex] (hash key [userId], range key [status]) with
    the key condition [userId = :userId AND status = :status]. *)
Definition queryUserRides (uid st : string) (t : gmap string Ride.t) : list Ride.t :=
  filter (λ r, Ride.userId r = uid ∧ Ride.status r = st) (map_to_list t).*2.

(** The [ride] object [requestRide] builds from the validated body. *)
Definition newRide (clock : nat → timestamp) (uuid userId : string)
    (value : rideBody) : Ride.t :=
  let p := pickupLocation value in
  let d := dropoffLocation value in
  let ty := default "standard" (rideType value) in
  let estimatedDistance :=
    calculateDistance (Loc.lat p) (Loc.lng p) (Loc.lat d) (Loc.lng d) in
  let estimatedFare := calculateEstimatedFare estimatedDistance ty in
  Ride.mk uuid userId None "requested" ty p d
          estimatedDistance estimatedFare None
          (clock 0%nat) None None None None.

(** Every value the handlers write to [status]
    ([// requested, matched, en-route, in-progress, completed, cancelled],
    and [arrived] from [validStatuses]). *)
Definition lifecycle : list string :=
  ["requested"; "matched"; "en-route"; "arrived"; "in-progress";
   "completed"; "cancelled"].

Record requestEvent := mkRequestEvent {
  req_authorization : option Utils.token;
  req_body : rideBody
}.

(** [requestRide].  [uuid] is the value [uuidv4()] returns to this
    invocation. *)
Definition requestRide (clock : nat → timestamp) (uuid : string)
    (ev : requestEvent) (s : db) : response * db :=
  match Utils.callerId (req_authorization ev) with
  | None => (internalError, s)
  | Some userId =>
      match schemas_ride_validate (req_body ev) with
      | inl details => (createResponse 400 (ValidationFailed details), s)
      | inr value =>
          let activeRide := queryUserRides userId "active" (rides s) in
          if bool_decide (0 < length activeRide)%nat then
            (createResponse 409 (Error "You already have an active ride request"), s)
          else
            let ride := newRide clock uuid userId value in
            let s1 := with_rides (insert uuid ride) s in
            let s2 :=
              publishEvent
                (RideRequested uuid userId (Ride.pickupLocation ride)
                   (Ride.rideType ride) (Ride.estimatedFare ride)) s1 in
            (createResponse 201
               (RideCreated uuid (Ride.status ride)
                  (Ride.estimatedFare ride) (Ride.estimatedDistance ride)), s2)
      end
  end.

(** The two [UpdateExpression]s of [acceptRide]. *)
Definition assignDriver (driverId : string) (now : timestamp) (r : Ride.t) : Ride.t :=
  Ride.mk (Ride.rideId r) (Ride.userId r) (Some driverId) "matched"
          (Ride.rideType r) (Ride.pickupLocation r) (Ride.dropoffLocation r)
          (Ride.estimatedDistance r) (Ride.estimatedFare r) (Ride.actualFare r)
          (Ride.createdAt r) (Some now) (Ride.startedAt r) (Ride.completedAt r)
          (Ride.updatedAt r).

Definition setDriverStatus (st : string) (now : timestamp) (d : Driver.t) : Driver.t :=
  Driver.mk (Driver.driverId d) (Driver.userId d) (Driver.licenseNumber d)
            (Driver.vehicleInfo d) st (Driver.rating d) (Driver.totalRides d)
            (Driver.isVerified d) (Driver.location d) (Driver.locationHash d)
            (Driver.createdAt d) (Driver.isActive d) (Some now).

Record acceptEvent := mkAcceptEvent {
  acc_authorization : option Utils.token;
  acc_rideId : string
}.

(** [acceptRide], run without interruption.  Both writes go to keys that the
    handler has just read, and no handler deletes an item, so [dbUpdate]
    finds the item it updates ([alter]). *)
Definition acceptRide (clock : nat → timestamp) (ev : acceptEvent) (s : db)
    : response * db :=
  match Utils.callerId (acc_authorization ev) with
  | None => (internalError, s)
  | Some driverId =>
      let rideId := acc_rideId ev in
      match rides s !! rideId with
      | None => (createResponse 404 (Error "Ride not found"), s)
      | Some ride =>
          if negb (String.eqb (Ride.status ride) "requested") then
            (createResponse 409 (Error "Ride is no longer available"), s)
          else
            match drivers s !! driverId with
            | None => (createResponse 409 (Error "Driver is not available"), s)
            | Some driver =>
                if negb (String.eqb (Driver.status driver) "available") then
                  (createResponse 409 (Error "Driver is not available"), s)
                else
                  let s1 := with_rides (alter (assignDriver driverId (clock 0%nat)) rideId) s in
                  let s2 := with_drivers (alter (setDriverStatus "busy" (clock 1%nat)) driverId) s1 in
                  let s3 := publishEvent (RideMatched rideId driverId (Ride.userId ride)) s2 in
                  (createResponse 200
                     (RideAccepted rideId (Ride.userId ride)
                        (Ride.pickupLocation ride) (Ride.dropoffLocation ride)), s3)
            end
      end
  end.

Definition validStatuses : list string :=
  ["en-route"; "arrived"; "in-progress"; "completed"; "cancelled"].

Record statusEvent := mkStatusEvent {
  upd_authorization : option Utils.token;
  upd_rideId : string;
  upd_status : string;
  upd_location : option Loc.t
}.

(** The [updates] object of [updateRideStatus]; an absent key is [None]. *)
Record updates := mkUpdates {
  u_status : string;
  u_updatedAt : timestamp;
  u_startedAt : option timestamp;
  u_completedAt : option timestamp;
  u_actualFare : option R
}.

Definition falsyFare (f : option R) : bool :=
  match f with
  | None => true
  | Some x => negb (JSMath.truthyR x)
  end.

Definition buildUpdates (clock : nat → timestamp) (status : string) (ride : Ride.t)
    : updates :=
  if String.eqb status "in-progress" then
    mkUpdates status (clock 0%nat) (Some (clock 1%nat)) None None
  else if String.eqb status "completed" then
    mkUpdates status (clock 0%nat) None (Some (clock 1%nat))
              (if falsyFare (Ride.actualFare ride)
               then Some (Ride.estimatedFare ride) else None)
  else
    mkUpdates status (clock 0%nat) None None None.

(** [SET #k = :k] for every key of [updates]. *)
Definition applyUpdates (u : updates) (r : Ride.t) : Ride.t :=
  Ride.mk (Ride.rideId r) (Ride.userId r) (Ride.driverId r) (u_status u)
          (Ride.rideType r) (Ride.pickupLocation r) (Ride.dropoffLocation r)
          (Ride.estimatedDistance r) (Ride.estimatedFare r)
          (match u_actualFare u with Some f => Some f | None => Ride.actualFare r end)
          (Ride.createdAt r) (Ride.matchedAt r)
          (match u_startedAt u with Some t => Some t | None => Ride.startedAt r end)
          (match u_completedAt u with Some t => Some t | None => Ride.completedAt r end)
          (Some (u_updatedAt u)).

Definition completeDriver (now : timestamp) (d : Driver.t) : Driver.t :=
  Driver.mk (Driver.driverId d) (Driver.userId d) (Driver.licenseNumber d)
            (Driver.vehicleInfo d) "available" (Driver.rating d)
            (Driver.totalRides d + 1)%Z
            (Driver.isVerified d) (Driver.location d) (Driver.locationHash d)
            (Driver.createdAt d) (Driver.isActive d) (Some now).

(** [updateRideStatus].  The driver update adds to [totalRides]; on a driver
    id with no item DynamoDB rejects the expression, the handler lands in its
    [catch] and answers 500 with the ride already written. *)
Definition updateRideStatus (clock : nat → timestamp) (ev : statusEvent) (s : db)
    : response * db :=
  match Utils.callerId (upd_authorization ev) with
  | None => (internalError, s)
  | Some userId =>
      let rideId := upd_rideId ev in
      let status := upd_status ev in
      if negb (bool_decide (status ∈ validStatuses)) then
        (createResponse 400
           (Error "Invalid status. Must be one of: en-route, arrived, in-progress, completed, cancelled"), s)
      else
        match rides s !! rideId with
        | None => (createResponse 404 (Error "Ride not found"), s)
        | Some ride =>
            if negb (String.eqb (Ride.userId ride) userId) &&
               negb (bool_decide (Ride.driverId ride = Some userId)) then
              (createResponse 403 (Error "Unauthorized to update this ride"), s)
            else
              let u := buildUpdates clock status ride in
              let s1 := with_rides (alter (applyUpdates u) rideId) s in
              let publish :=
                publishEvent (RideStatusChanged rideId status (Ride.userId ride)
                                (Ride.driverId ride) (upd_location ev)) in
              let ok := createResponse 200 (Message "Ride status updated successfully") in
              match (if String.eqb status "completed"
                     then JSMath.truthyId (Ride.driverId ride) else None) with
              | None => (ok, publish s1)
              | Some did =>
                  match drivers s1 !! did with
                  | None => (internalError, s1)
                  | Some _ =>
                      (ok, publish (with_drivers (alter (completeDriver (clock 2%nat)) did) s1))
                  end
              end
        end
  end.

(** *** [acceptRide] between its awaits

    Every [await] of the handler is one request to the store; invocations of
    different callers take turns between them.  A task records where an
    invocation stands and what it has read so far. *)
Inductive acceptTask :=
| AcceptStart (ev : acceptEvent)
| AcceptGetDriver (driverId rideId : string) (ride : Ride.t)
| AcceptUpdateRide (driverId rideId : string) (ride : Ride.t)
| AcceptUpdateDriver (driverId rideId : string) (ride : Ride.t)
| AcceptPublish (driverId rideId : string) (ride : Ride.t)
| AcceptDone (r : response).

Definition acceptStep (clock : nat → timestamp) (t : acceptTask) (s : db)
    : acceptTask * db :=
  match t with
  | AcceptStart ev =>
      match Utils.callerId (acc_authorization ev) with
      | None => (AcceptDone internalError, s)
      | Some driverId =>
          match rides s !! acc_rideId ev with
          | None => (AcceptDone (createResponse 404 (Error "Ride not found")), s)
          | Some ride =>
              if negb (String.eqb (Ride.status ride) "requested") then
                (AcceptDone (createResponse 409 (Error "Ride is no longer available")), s)
              else (AcceptGetDriver driverId (acc_rideId ev) ride, s)
          end
      end
  | AcceptGetDriver driverId rideId ride =>
      match drivers s !! driverId with
      | None => (AcceptDone (createResponse 409 (Error "Driver is not available")), s)
      | Some driver =>
          if negb (String.eqb (Driver.status driver) "available") then
            (AcceptDone (createResponse 409 (Error "Driver is not available")), s)
          else (AcceptUpdateRide driverId rideId ride, s)
      end
  | AcceptUpdateRide driverId rideId ride =>
      (AcceptUpdateDriver driverId rideId ride,
       with_rides (alter (assignDriver driverId (clock 0%nat)) rideId) s)
  | AcceptUpdateDriver driverId rideId ride =>
      (AcceptPublish driverId rideId ride,
       with_drivers (alter (setDriverStatus "busy" (clock 1%nat)) driverId) s)
  | AcceptPublish driverId rideId ride =>
      (AcceptDone (createResponse 200
                     (RideAccepted rideId (Ride.userId ride)
                        (Ride.pickupLocation ride) (Ride.dropoffLocation ride))),
       publishEvent (RideMatched rideId driverId (Ride.userId ride)) s)
  | AcceptDone r => (AcceptDone r, s)
  end.

(** A schedule names, turn by turn, the invocation that performs its next
    request; [clocks i] is the clock of invocation [i]. *)
Fixpoint runSchedule (clocks : nat → nat → timestamp) (sched : list nat)
    (pool : list acceptTask) (s : db) : list acceptTask * db :=
  match sched with
  | [] => (pool, s)
  | i :: rest =>
      match pool !! i with
      | None => runSchedule clocks rest pool s
      | Some t =>
          let '(t', s') := acceptStep (clocks i) t s in
          runSchedule clocks rest (<[i := t']> pool) s'
      end
  end.

(** Invocations that do not overlap: each runs to its response before the
    next one starts. *)
Fixpoint acceptAll (clock : nat → timestamp) (evs : list acceptEvent) (s : db)
    : list response * db :=
  match evs with
  | [] => ([], s)
  | ev :: rest =>
      let '(r, s1) := acceptRide clock ev s in
      let '(rs, s2) := acceptAll clock rest s1 in
      (r :: rs, s2)
  end.

(** The calls of the three handlers, for reachability. *)
Inductive call :=
| CallRequest (clock : nat → timestamp) (uuid : string) (ev : requestEvent)
| CallAccept (clock : nat → timestamp) (ev : acceptEvent)
| CallUpdate (clock : nat → timestamp) (ev : statusEvent).

Definition runCall (c : call) (s : db) : response * db :=
  match c with
  | CallRequest clock uuid ev => requestRide clock uuid ev s
  | CallAccept clock ev => acceptRide clock ev s
  | CallUpdate clock ev => updateRideStatus clock ev s
  end.

(** States reached from a store by handler calls. *)
Inductive reachableFrom (s0 : db) : db → Prop :=
| reach_init : reachableFrom s0 s0
| reach_step c s : reachableFrom s0 s → reachableFrom s0 (runCall c s).2.

(** What holds of every stored ride: its status is one of the seven values,
    a [requested] ride has no driver, a [matched] ride has one. *)
Definition rideInv (r : Ride.t) : Prop :=
  Ride.status r ∈ lifecycle ∧
  (Ride.status r = "requested" → Ride.driverId r = None) ∧
  (Ride.status r = "matched" → is_Some (Ride.driverId r)).

Definition ridesInv (s : db) : Prop :=
  ∀ k r, rides s !! k = Some r → rideInv r.

End RideService.

(** ** The driver service *)
Module DriverService.

Inductive body :=
| Error (error : string)
| Message (message : string)
| DriverProfile (driver : Driver.t)
| Drivers (drivers : list (Driver.t * R)).

Record response := createResponse { statusCode : nat; responseBody : body }.

Definition internalError : response :=
  createResponse 500 (Error "Internal server error").

(** [generateLocationHash]: the cell of a 0.01-degree grid, printed as
    ["<latGrid>_<lngGrid>"].  The product is exact here; the code floors the
    rounded double product, which for a coordinate next to a cell border can
    fall on the other side ([0.29 * 100] is [28.999999999999996]). *)
Definition generateLocationHash (lat lng : Q) : string :=
  let latGrid := Qfloor (lat * 100) in
  let lngGrid := Qfloor (lng * 100) in
  pretty latGrid +:+ "_" +:+ pretty lngGrid.

(** [for (let i = -steps; i <= steps; i++)] *)
Definition stepRange (steps : Z) : list Z :=
  (λ k, (Z.of_nat k - steps)%Z) <$> seq 0 (Z.to_nat (2 * steps + 1)).

(** [Set.prototype.add]: a [Set] keeps its elements in insertion order. *)
Definition setAdd (acc : list string) (h : string) : list string :=
  if bool_decide (h ∈ acc) then acc else acc ++ [h].

(** [generateNearbyLocationHashes].  The visited points are exact here; in
    the code [lat + i * gridSize] and its product with 100 are rounded, so
    two of them can fall into one cell and the ring can have fewer keys than
    points. *)
Definition generateNearbyLocationHashes (lat lng radiusKm : Q) : list string :=
  let gridSize := (1 # 100)%Q in
  let steps := Qceiling (radiusKm / (11132 # 100)) in
  foldl setAdd []
    (i ← stepRange steps;
     j ← stepRange steps;
     let testLat := (lat + inject_Z i * gridSize)%Q in
     let testLng := (lng + inject_Z j * gridSize)%Q in
     [generateLocationHash testLat testLng]).

(** The query on [LocationIndex] with its filter expression
    [status = 'available' AND isActive = true]. *)
Definition queryLocationIndex (hash : string) (t : gmap string Driver.t)
    : list Driver.t :=
  filter (λ d, Driver.locationHash d = Some hash ∧
               Driver.status d = "available" ∧ Driver.isActive d = true)
         (map_to_list t).*2.

(** The candidates of the bucket pass: what the queries return, before the
    distance filter. *)
Definition bucketCandidates (latitude longitude radius : Q)
    (t : gmap string Driver.t) : list Driver.t :=
  hash ← generateNearbyLocationHashes latitude longitude radius;
  queryLocationIndex hash t.

(** The callback of [result.Items.filter]. *)
Definition withinRadius (latitude longitude radius : Q) (d : Driver.t) : Prop :=
  match Driver.location d with
  | None => False
  | Some l =>
      (calculateDistance latitude longitude (Loc.lat l) (Loc.lng l) <= Q2R radius)%R
  end.

#[global] Instance withinRadius_dec latitude longitude radius d :
  Decision (withinRadius latitude longitude radius d).
Proof.
  unfold withinRadius. destruct (Driver.location d); [apply Rle_dec | right; tauto].
Defined.

Definition distanceTo (latitude longitude : Q) (d : Driver.t) : R :=
  match Driver.location d with
  | None => 0%R
  | Some l => calculateDistance latitude longitude (Loc.lat l) (Loc.lng l)
  end.

Definition score (e : Driver.t * R) : R :=
  (Q2R (Driver.rating e.1) * (3 / 10) - e.2 * (7 / 10))%R.

(** [Array.prototype.sort] is stable; with the comparator
    [scoreB - scoreA] an element goes in front of the first one whose score
    is strictly lower. *)
Fixpoint insertByScore (x : Driver.t * R) (l : list (Driver.t * R))
    : list (Driver.t * R) :=
  match l with
  | [] => [x]
  | y :: l' =>
      if Rlt_dec (score y) (score x) then x :: y :: l'
      else y :: insertByScore x l'
  end.

Definition sortByScore (l : list (Driver.t * R)) : list (Driver.t * R) :=
  foldl (λ acc x, insertByScore x acc) [] l.

Record nearbyEvent := mkNearbyEvent {
  q_lat : option Q;
  q_lng : option Q;
  q_radius : option Q
}.

(** The drivers pushed to [nearbyDrivers] by the loop over the hashes. *)
Definition nearbyDrivers (latitude longitude radius : Q)
    (t : gmap string Driver.t) : list Driver.t :=
  hash ← generateNearbyLocationHashes latitude longitude radius;
  filter (withinRadius latitude longitude radius) (queryLocationIndex hash t).

Definition sortedDrivers (latitude longitude radius : Q)
    (t : gmap string Driver.t) : list (Driver.t * R) :=
  take 10 (sortByScore
             ((λ d, (d, distanceTo latitude longitude d)) <$>
                nearbyDrivers latitude longitude radius t)).

(** [getNearbyDrivers]; the query-string values arrive parsed. *)
Definition getNearbyDrivers (ev : nearbyEvent) (s : db) : response :=
  match q_lat ev, q_lng ev with
  | Some latitude, Some longitude =>
      let radius := default 5%Q (q_radius ev) in
      createResponse 200 (Drivers (sortedDrivers latitude longitude radius (drivers s)))
  | _, _ => createResponse 400 (Error "Latitude and longitude are required")
  end.

(** [s.slice(-4)] *)
Definition lastFour (s : string) : string :=
  String.substring (String.length s - 4) 4 s.

Definition maskLicense (d : Driver.t) : Driver.t :=
  Driver.mk (Driver.driverId d) (Driver.userId d)
            ("***" +:+ lastFour (Driver.licenseNumber d))
            (Driver.vehicleInfo d) (Driver.status d) (Driver.rating d)
            (Driver.totalRides d) (Driver.isVerified d) (Driver.location d)
            (Driver.locationHash d) (Driver.createdAt d) (Driver.isActive d)
            (Driver.updatedAt d).

(** [getDriverProfile] *)
Definition getDriverProfile (authorization : option Utils.token) (s : db) : response :=
  match Utils.callerId authorization with
  | None => internalError
  | Some driverId =>
      match drivers s !! driverId with
      | None => createResponse 404 (Error "Driver not found")
      | Some driver => createResponse 200 (DriverProfile (maskLicense driver))
      end
  end.

(** The same item with another [licenseNumber]; used to compare two stores
    that differ in nothing else. *)
Definition setLicense (license : string) (d : Driver.t) : Driver.t :=
  Driver.mk (Driver.driverId d) (Driver.userId d) license
            (Driver.vehicleInfo d) (Driver.status d) (Driver.rating d)
            (Driver.totalRides d) (Driver.isVerified d) (Driver.location d)
            (Driver.locationHash d) (Driver.createdAt d) (Driver.isActive d)
            (Driver.updatedAt d).

(** Every item sits under its own hash key. *)
Definition keyed (t : gmap string Driver.t) : Prop :=
  map_Forall (λ k d, Driver.driverId d = k) t.

Record availabilityEvent := mkAvailabilityEvent {
  av_authorization : option Utils.token;
  av_status : string;
  av_location : option Loc.t
}.

Definition availabilityStatuses : list string := ["offline"; "available"; "busy"].

(** [location && location.lat && location.lng] *)
Definition usableLocation (o : option Loc.t) : option Loc.t :=
  match o with
  | Some l =>
      if JSMath.truthyQ (Loc.lat l) && JSMath.truthyQ (Loc.lng l) then Some l else None
  | None => None
  end.

Definition setAvailability (status : string) (now : timestamp)
    (loc : option Loc.t) (d : Driver.t) : Driver.t :=
  Driver.mk (Driver.driverId d) (Driver.userId d) (Driver.licenseNumber d)
            (Driver.vehicleInfo d) status (Driver.rating d) (Driver.totalRides d)
            (Driver.isVerified d)
            (match loc with Some l => Some l | None => Driver.location d end)
            (match loc with
             | Some l => Some (generateLocationHash (Loc.lat l) (Loc.lng l))
             | None => Driver.locationHash d
             end)
            (Driver.createdAt d) (Driver.isActive d) (Some now).

(** [updateAvailability] for a registered driver.  The handler writes without
    reading: for a caller with no driver item the store would create an item
    holding only the written attributes, which [Driver.t] cannot express;
    the function is undefined ([None]) there. *)
Definition updateAvailability (clock : nat → timestamp) (ev : availabilityEvent)
    (s : db) : option (response * db) :=
  match Utils.callerId (av_authorization ev) with
  | None => Some (internalError, s)
  | Some driverId =>
      let status := av_status ev in
      if negb (bool_decide (status ∈ availabilityStatuses)) then
        Some (createResponse 400
                (Error "Invalid status. Must be offline, available, or busy"), s)
      else
        let loc := usableLocation (av_location ev) in
        match drivers s !! driverId with
        | None => None
        | Some _ =>
            let s1 :=
              with_drivers (alter (setAvailability status (clock 0%nat) loc) driverId) s in
            Some (createResponse 200 (Message "Availability updated successfully"),
                  publishEvent (DriverAvailabilityChanged driverId status loc) s1)
        end
  end.

End DriverService.

(** ** The websocket service *)

(** An item of the connections table, without its hash key
    [connectionId], which is the key of the map.  [UpdateItem] creates the
    item when the key is new, so every other attribute may be absent. *)
Module Conn.
Record t := mk {
  userId : option string;
  userType : option string;
  connectedAt : option timestamp;
  lastActivity : option timestamp;
  disconnectedAt : option timestamp
}.

Definition blank : t := mk None None None None None.

Definition setDisconnectedAt (now : timestamp) (c : t) : t :=
  mk (userId c) (userType c) (connectedAt c) (lastActivity c) (Some now).

Definition setLastActivity (now : timestamp) (c : t) : t :=
  mk (userId c) (userType c) (connectedAt c) (Some now) (disconnectedAt c).
End Conn.

Module WebSocketService.

Inductive body :=
| Error (error : string)
| Message (message : string).

Record response := createResponse { statusCode : nat; responseBody : body }.

(** What is pushed to a client. *)
Inductive outbound :=
| Pong
| LocationUpdate (rideId : string) (userId : option string)
                 (location : option Loc.t) (time : timestamp)
| RideStatusUpdate (rideId : string) (status : option string)
                   (text : option string) (time : timestamp).

(** The outcome of [postToConnection]: delivered, rejected with status 410 or
    403, or any other failure. *)
Inductive pushResult := Delivered | Gone | TransientError.

Record attempt := mkAttempt {
  to : string;
  payload : outbound;
  result : pushResult
}.

(** The state the service works on: the connections table, the pushes made so
    far, and the number of clock reads of the running invocation. *)
Record wsState := mkWs {
  connections : gmap string Conn.t;
  outbox : list attempt;
  reads : nat
}.

(** [dbUpdate] with a [SET] expression on the connections table. *)
Definition upsert (f : Conn.t → Conn.t) (cid : string)
    (t : gmap string Conn.t) : gmap string Conn.t :=
  <[cid := f (default Conn.blank (t !! cid))]> t.

(** A state monad for the handlers. *)
Definition M (A : Type) : Type := wsState → A * wsState.

Definition ret {A} (a : A) : M A := λ s, (a, s).

Definition bind {A B} (m : M A) (k : A → M B) : M B :=
  λ s, let '(a, s1) := m s in k a s1.

Notation "x <~ m ;; k" := (bind m (λ x, k))
  (at level 100, m at next level, right associativity).
Notation "m ;;; k" := (bind m (λ _, k))
  (at level 100, right associativity).

Fixpoint forEach {A} (l : list A) (f : A → M unit) : M unit :=
  match l with
  | [] => ret tt
  | x :: l' => f x ;;; forEach l' f
  end.

Definition modifyConnections (f : gmap string Conn.t → gmap string Conn.t) : M unit :=
  λ s, (tt, mkWs (f (connections s)) (outbox s) (reads s)).

Section Handlers.

(** The environment of an invocation: its clock, the transport (whose answer
    may depend on everything pushed before), and the rides table, which this
    service only reads. *)
Variable clock : nat → timestamp.
Variable transport : list attempt → string → outbound → pushResult.
Variable rides : gmap string Ride.t.

(** [new Date().toISOString()] *)
Definition now : M timestamp :=
  λ s, (clock (reads s), mkWs (connections s) (outbox s) (S (reads s))).

(** [connect]; [userId] and [userType] come from the query string. *)
Definition connect (connectionId : string) (userId userType : option string)
    : M response :=
  match JSMath.truthyId userId, JSMath.truthyId userType with
  | Some u, Some ty =>
      connectedAt <~ now ;;
      lastActivity <~ now ;;
      modifyConnections
        (insert connectionId
           (Conn.mk (Some u) (Some ty) (Some connectedAt) (Some lastActivity) None)) ;;;
      ret (createResponse 200 (Message "Connected successfully"))
  | _, _ => ret (createResponse 400 (Error "Missing required parameters"))
  end.

(** [disconnect] *)
Definition disconnect (connectionId : string) : M response :=
  t <~ now ;;
  modifyConnections (upsert (Conn.setDisconnectedAt t) connectionId) ;;;
  ret (createResponse 200 (Message "Disconnected successfully")).

(** [getUserConnections]: the query on [UserConnectionsIndex] with the filter
    [attribute_not_exists(disconnectedAt)].  A [null] or [undefined] user id
    is not a key value; the store rejects the query and the helper's [catch]
    returns the empty list. *)
Definition getUserConnections (userId : option string) : M (list (string * Conn.t)) :=
  λ s,
    (match userId with
     | None => []
     | Some u =>
         filter (λ kc, Conn.userId kc.2 = Some u ∧ Conn.disconnectedAt kc.2 = None)
                (map_to_list (connections s))
     end, s).

(** [sendMessageToConnection] *)
Definition sendMessageToConnection (connectionId : string) (msg : outbound) : M unit :=
  λ s,
    let r := transport (outbox s) connectionId msg in
    let s1 := mkWs (connections s) (outbox s ++ [mkAttempt connectionId msg r]) (reads s) in
    match r with
    | Gone =>
        (t <~ now ;;
         modifyConnections (upsert (Conn.setDisconnectedAt t) connectionId)) s1
    | _ => (tt, s1)
    end.

(** The two nested loops shared by both fanout handlers: the inner one over
    the connections of a target, the outer one over the targets.  [mk] builds
    the message from the clock read made for its [timestamp] field. *)
Definition sendAll (mk : timestamp → outbound) (conns : list (string * Conn.t))
    : M unit :=
  forEach conns (λ connection,
    t <~ now ;;
    sendMessageToConnection connection.1 (mk t)).

Definition fanout (targetUsers : list (option string)) (mk : timestamp → outbound)
    : M unit :=
  forEach targetUsers (λ targetUserId,
    conns <~ getUserConnections targetUserId ;;
    sendAll mk conns).

(** [id !== userId] is false only for two equal strings. *)
Definition sameUser (id userId : option string) : bool :=
  match id, userId with
  | Some a, Some b => String.eqb a b
  | _, _ => false
  end.

Definition locationTargets (ride : Ride.t) (userId : option string)
    : list (option string) :=
  List.filter (λ id, negb (sameUser id userId))
              [Some (Ride.userId ride); Ride.driverId ride].

Definition statusTargets (ride : Ride.t) : list (option string) :=
  [Some (Ride.userId ride); Ride.driverId ride].

(** [handleLocationUpdate] *)
Definition handleLocationUpdate (connectionId : string)
    (userId : option string) (location : option Loc.t) (rideId : option string)
    : M unit :=
  match JSMath.truthyId rideId with
  | None => ret tt
  | Some rid =>
      match rides !! rid with
      | None => ret tt
      | Some ride =>
          fanout (locationTargets ride userId)
                 (λ t, LocationUpdate rid userId location t)
      end
  end.

(** [handleRideStatusUpdate]; a missing [rideId] makes [dbGet] throw, which
    the handler catches. *)
Definition handleRideStatusUpdate (connectionId : string)
    (rideId : option string) (status text : option string) : M unit :=
  match rideId with
  | None => ret tt
  | Some rid =>
      match rides !! rid with
      | None => ret tt
      | Some ride =>
          fanout (statusTargets ride) (λ t, RideStatusUpdate rid status text t)
      end
  end.

(** The body of an inbound frame.  [InUnparsable] is a body that
    [JSON.parse] rejects or parses to [null]; the two [NoData] frames carry
    the action but a missing or [null] [data], which the fanout handlers
    destructure before their [try]. *)
Inductive inbound :=
| InLocationUpdate (userId : option string) (location : option Loc.t)
                   (rideId : option string)
| InRideStatusUpdate (rideId : option string) (status text : option string)
| InPing
| InUnknown (action : string)
| InLocationUpdateNoData
| InRideStatusUpdateNoData
| InUnparsable.

Definition processed : response :=
  createResponse 200 (Message "Message processed").

Definition failedToProcess : response :=
  createResponse 500 (Error "Failed to process message").

(** [message].  What throws, throws into the handler's own [catch]: before
    the activity update for a body that cannot be taken apart, after it for
    an update without [data]. *)
Definition message (connectionId : string) (frame : inbound) : M response :=
  match frame with
  | InUnparsable => ret failedToProcess
  | _ =>
      t <~ now ;;
      modifyConnections (upsert (Conn.setLastActivity t) connectionId) ;;;
      match frame with
      | InLocationUpdate userId location rideId =>
          handleLocationUpdate connectionId userId location rideId ;;;
          ret processed
      | InRideStatusUpdate rideId status text =>
          handleRideStatusUpdate connectionId rideId status text ;;;
          ret processed
      | InPing => sendMessageToConnection connectionId Pong ;;; ret processed
      | InUnknown _ => ret processed
      | InLocationUpdateNoData | InRideStatusUpdateNoData | InUnparsable =>
          ret failedToProcess
      end
  end.

End Handlers.

(** One invocation: its clock reads are counted from zero. *)
Definition handle {A} (m : M A) (s : wsState) : A * wsState :=
  m (mkWs (connections s) (outbox s) 0).

Definition recipients (l : list attempt) : list string := to <$> l.

(** The connection is live: stored, and never marked disconnected. *)
Definition live (cid : string) (s : wsState) : Prop :=
  ∃ c, connections s !! cid = Some c ∧ Conn.disconnectedAt c = None.

Definition ownedBy (cid u : string) (s : wsState) : Prop :=
  ∃ c, connections s !! cid = Some c ∧ Conn.userId c = Some u.

(** How the state moves while pushes are made: [new] is appended to the
    outbox, and an item of the table either stays or, for a recipient among
    [new], gets a disconnect time. *)
Definition marked (s0 s : wsState) (new : list attempt) : Prop :=
  outbox s = outbox s0 ++ new ∧
  ∀ c, connections s !! c = connections s0 !! c ∨
       (c ∈ recipients new ∧
        ∃ t, connections s !! c
             = Some (Conn.setDisconnectedAt t
                       (default Conn.blank (connections s0 !! c)))).

End WebSocketService.

(** ** Concrete stores and requests used by the examples below *)
Module Examples.
Import RideService.

Definition demoLoc : Loc.t := Loc.mk 1 1 (Some "Main St 1").

Definition demoRide (rid uid : string) (did : option string) (st : string) : Ride.t :=
  Ride.mk rid uid did st "standard" demoLoc demoLoc 0%R (25 / 10)%R None
          "2024-01-01T00:00:00.000Z" None None None None.

Definition demoVehicle : Driver.vehicle :=
  Driver.mkVehicle "Toyota" "Prius" (Some 2020%Z) "7ABC123" "white".

Definition demoDriver (did st license : string) : Driver.t :=
  Driver.mk did did license demoVehicle st 5 0 true None None
            "2024-01-01T00:00:00.000Z" true None.

(** An unsigned token: algorithm [none], empty signature segment. *)
Definition unsignedToken (u : string) : Utils.token :=
  Utils.Jwt "none" (Utils.mkClaims (Some u) None None None None) "".

Definition demoClock (k : nat) : timestamp := "2024-01-01T00:05:00.000Z".

(** One requested ride of rider [u1], two available drivers. *)
Definition raceDb : db :=
  mkDb {[ "r1" := demoRide "r1" "u1" None "requested" ]}
       (<["d1" := demoDriver "d1" "available" "D1234567"]>
          {[ "d2" := demoDriver "d2" "available" "D7654321" ]})
       [].

Definition raceEvents : list acceptEvent :=
  [mkAcceptEvent (Some (unsignedToken "d1")) "r1";
   mkAcceptEvent (Some (unsignedToken "d2")) "r1"].

Definition demoBody : rideBody := mkRideBody demoLoc demoLoc None.

(** Two drivers and no ride yet. *)
Definition driversDb : db :=
  mkDb ∅
       (<["d1" := demoDriver "d1" "available" "D1234567"]>
          {[ "d2" := demoDriver "d2" "available" "D7654321" ]})
       [].

(** Rider [u1] has one ride, still [requested]. *)
Definition requestedDb : db :=
  mkDb {[ "r1" := demoRide "r1" "u1" None "requested" ]} ∅ [].

(** The ride of rider [u1] with driver [d1] is [completed]. *)
Definition completedDb : db :=
  mkDb {[ "r1" := demoRide "r1" "u1" (Some "d1") "completed" ]}
       {[ "d1" := demoDriver "d1" "available" "D1234567" ]}
       [].

(** Driver [did] reports itself available at [l]. *)
Definition goAvailable (did : string) (l : Loc.t) (s : db) : db :=
  match DriverService.updateAvailability demoClock
          (DriverService.mkAvailabilityEvent (Some (unsignedToken did)) "available" (Some l))
          s with
  | Some (_, s') => s'
  | None => s
  end.

(** [d1] stands on the query point (1, 1). *)
Definition nearDb : db := goAvailable "d1" (Loc.mk 1 1 None) driversDb.

(** [d1] stands 0.03 degrees of latitude (about 3.3 km) north of it. *)
Definition farLoc : Loc.t := Loc.mk (103 # 100) 1 None.

Definition farDb : db := goAvailable "d1" farLoc driversDb.

(** Rider [u1] and driver [d1] of ride [r1], each with one open connection;
    [c0] was closed earlier. *)
Definition matchedRides : gmap string Ride.t :=
  {[ "r1" := demoRide "r1" "u1" (Some "d1") "matched" ]}.

Definition demoConn (u ty : string) (closed : option timestamp) : Conn.t :=
  Conn.mk (Some u) (Some ty) (Some "2024-01-01T00:00:00.000Z")
          (Some "2024-01-01T00:00:00.000Z") closed.

Definition liveWs : WebSocketService.wsState :=
  WebSocketService.mkWs
    (<["c0" := demoConn "u1" "rider" (Some "2024-01-01T00:01:00.000Z")]>
       (<["c1" := demoConn "u1" "rider" None]>
          {[ "c2" := demoConn "d1" "driver" None ]}))
    [] 0.

(** A transport on which every push arrives. *)
Definition reliable (_ : list WebSocketService.attempt) (_ : string)
    (_ : WebSocketService.outbound) : WebSocketService.pushResult :=
  WebSocketService.Delivered.

Definition laterClock (k : nat) : timestamp := "2024-01-01T00:09:00.000Z".

Definition nearDriver : Driver.t :=
  DriverService.setAvailability "available" (demoClock 0%nat)
    (Some (Loc.mk 1 1 None)) (demoDriver "d1" "available" "D1234567").

Definition farDriver : Driver.t :=
  DriverService.setAvailability "available" (demoClock 0%nat)
    (Some farLoc) (demoDriver "d1" "available" "D1234567").

Definition nearbyQuery : DriverService.nearbyEvent :=
  DriverService.mkNearbyEvent (Some 1%Q) (Some 1%Q) (Some 5%Q).

End Examples.

(** ** [acceptRide] calls that overlap

    The vocabulary for the outcome of a race: the two answers a call can
    give, where an invocation stands, and what has happened to a driver item
    and to the ride since the race began in store [s0]. *)
Module Race.
Import RideService.

Definition accepted (rideId : string) (ride : Ride.t) : response :=
  createResponse 200
    (RideAccepted rideId (Ride.userId ride)
       (Ride.pickupLocation ride) (Ride.dropoffLocation ride)).

Definition alreadyMatched : response :=
  createResponse 409 (Error "Ride is no longer available").

(** The invocation has returned. *)
Definition isDone (t : acceptTask) : bool :=
  match t with AcceptDone _ => true | _ => false end.

(** Store requests an invocation may still make. *)
Definition remaining (t : acceptTask) : nat :=
  match t with
  | AcceptStart _ => 5
  | AcceptGetDriver _ _ _ => 4
  | AcceptUpdateRide _ _ _ => 3
  | AcceptUpdateDriver _ _ _ => 2
  | AcceptPublish _ _ _ => 1
  | AcceptDone _ => 0
  end.

(** The invocation has written the ride and has not been refused. *)
Definition wrote (t : acceptTask) : bool :=
  match t with
  | AcceptUpdateDriver _ _ _ | AcceptPublish _ _ _ => true
  | AcceptDone r => bool_decide (statusCode r = 200)
  | _ => false
  end.

Definition untouched (s0 s : db) (d : string) : Prop :=
  drivers s !! d = drivers s0 !! d.

Definition busied (s0 s : db) (d : string) : Prop :=
  ∃ dr now, drivers s0 !! d = Some dr ∧
            drivers s !! d = Some (setDriverStatus "busy" now dr).

Definition taken (rideId : string) (s : db) : Prop :=
  ∃ r, rides s !! rideId = Some r ∧ Ride.status r = "matched".

(** What is known of the invocation of driver [d] with event [ev] from the
    point it has reached: it read the ride while it was still [ride0], and
    its own driver item is touched by nobody else. *)
Definition taskInv (s0 : db) (rideId : string) (ride0 : Ride.t) (s : db)
    (d : string) (ev : acceptEvent) (t : acceptTask) : Prop :=
  match t with
  | AcceptStart ev' => ev' = ev ∧ untouched s0 s d
  | AcceptGetDriver d' rid' r | AcceptUpdateRide d' rid' r =>
      d' = d ∧ rid' = rideId ∧ r = ride0 ∧ untouched s0 s d
  | AcceptUpdateDriver d' rid' r =>
      d' = d ∧ rid' = rideId ∧ r = ride0 ∧ untouched s0 s d ∧ taken rideId s
  | AcceptPublish d' rid' r =>
      d' = d ∧ rid' = rideId ∧ r = ride0 ∧ busied s0 s d ∧ taken rideId s
  | AcceptDone resp =>
      (resp = accepted rideId ride0 ∧ busied s0 s d ∧ taken rideId s) ∨
      (resp = alreadyMatched ∧ untouched s0 s d ∧ taken rideId s)
  end.

(** The invariant of a race: every invocation satisfies [taskInv], and the
    ride is either still [ride0] or [matched] with the driver of an
    invocation that wrote it. *)
Definition raceInv (s0 : db) (rideId : string) (ride0 : Ride.t)
    (ds : list string) (evs : list acceptEvent)
    (pool : list acceptTask) (s : db) : Prop :=
  length pool = length ds ∧
  (∀ i d ev t, ds !! i = Some d → evs !! i = Some ev → pool !! i = Some t →
               taskInv s0 rideId ride0 s d ev t) ∧
  ∃ r, rides s !! rideId = Some r ∧
       (r = ride0 ∨
        (Ride.status r = "matched" ∧
         ∃ i d t, ds !! i = Some d ∧ pool !! i = Some t ∧ wrote t = true ∧
                  Ride.driverId r = Some d)).
End Race.

(** ** Further handlers, the client, and auxiliary notions *)

(** The term [a] of [calculateDistance], whose two square roots the formula
    takes. *)
Definition haversine_a (lat1 lon1 lat2 lon2 : Q) : R :=
  (sin ((Q2R lat2 - Q2R lat1) * PI / 180 / 2) * sin ((Q2R lat2 - Q2R lat1) * PI / 180 / 2) +
   cos (Q2R lat1 * PI / 180) * cos (Q2R lat2 * PI / 180) *
   sin ((Q2R lon2 - Q2R lon1) * PI / 180 / 2) * sin ((Q2R lon2 - Q2R lon1) * PI / 180 / 2))%R.

Module DriverNotions.
Import DriverService.

(** The bucket key of the grid cell [(latGrid, lngGrid)]. *)
Definition cellHash (latGrid lngGrid : Z) : string :=
  pretty latGrid +:+ "_" +:+ pretty lngGrid.

Fixpoint underscoreFree (s : string) : Prop :=
  match s with
  | EmptyString => True
  | String c s' => c ≠ "_"%char ∧ underscoreFree s'
  end.

(** Every driver that has a location is stored under the bucket key of that
    location. *)
Definition hashConsistent (t : gmap string Driver.t) : Prop :=
  map_Forall (λ _ d, ∀ l, Driver.location d = Some l →
     Driver.locationHash d = Some (generateLocationHash (Loc.lat l) (Loc.lng l))) t.

(** Best first: [a] may stand before [b]. *)
Definition byScore (a b : Driver.t * R) : Prop := (score b <= score a)%R.

End DriverNotions.

(** An item of the users table, without its hash key [userId]; as with
    connections, [UpdateItem] may create it with only the attributes it
    sets. *)
Module User.
Record t := mk {
  email : option string;
  firstName : option string;
  lastName : option string;
  phoneNumber : option string;
  userType : option string;
  createdAt : option timestamp;
  isActive : option bool;
  profileComplete : option bool;
  updatedAt : option timestamp
}.

Definition blank : t := mk None None None None None None None None None.

Definition setUserType (ty : string) (now : timestamp) (u : t) : t :=
  mk (email u) (firstName u) (lastName u) (phoneNumber u) (Some ty)
     (createdAt u) (isActive u) (profileComplete u) (Some now).
End User.

(** *** [registerDriver] of the driver service *)
Module Registration.
Import DriverService.

Inductive body :=
| Error (error : string)
| ValidationFailed (details : string)
| Registered (message : string) (driver : Driver.t).

Record response := createResponse { statusCode : nat; responseBody : body }.

Record driverBody := mkDriverBody {
  licenseNumber : string;
  vehicleInfo : Driver.vehicle
}.

(** [schemas.driver.validate] on a body that has a [vehicleInfo] object:
    keys in schema order, the path of the first failure standing for Joi's
    message; [currentYear] is [new Date().getFullYear()] at the time the
    schema is built. *)
Definition schemas_driver_validate (currentYear : Z) (b : driverBody)
    : string + driverBody :=
  let v := vehicleInfo b in
  if negb (JSMath.truthyS (licenseNumber b)) then inl "licenseNumber"
  else if negb (JSMath.truthyS (Driver.make v)) then inl "vehicleInfo.make"
  else if negb (JSMath.truthyS (Driver.model v)) then inl "vehicleInfo.model"
  else if negb (match Driver.year v with
                | Some y => bool_decide (2000 ≤ y ≤ currentYear)%Z
                | None => true
                end) then inl "vehicleInfo.year"
  else if negb (JSMath.truthyS (Driver.licensePlate v)) then inl "vehicleInfo.licensePlate"
  else if negb (JSMath.truthyS (Driver.color v)) then inl "vehicleInfo.color"
  else inr b.

(** The store together with the users table and the ['Driver Registered']
    events published so far, each as [(driverId, userId)]. *)
Record regState := mkReg {
  store : db;
  users : gmap string User.t;
  registered : list (string * string)
}.

(** The [driver] object [registerDriver] builds. *)
Definition newDriver (clock : nat → timestamp) (userId : string) (value : driverBody)
    : Driver.t :=
  Driver.mk userId userId (licenseNumber value) (vehicleInfo value)
            "offline" 5 0 false None None (clock 0%nat) true None.

Definition upsertUser (f : User.t → User.t) (userId : string)
    (t : gmap string User.t) : gmap string User.t :=
  <[userId := f (default User.blank (t !! userId))]> t.

Record registerEvent := mkRegisterEvent {
  reg_authorization : option Utils.token;
  reg_body : driverBody
}.

(** [registerDriver].  The item is stored as written, its [null] position
    and bucket key included. *)
Definition registerDriver (clock : nat → timestamp) (currentYear : Z)
    (ev : registerEvent) (s : regState) : response * regState :=
  match Utils.callerId (reg_authorization ev) with
  | None => (createResponse 500 (Error "Internal server error"), s)
  | Some userId =>
      match schemas_driver_validate currentYear (reg_body ev) with
      | inl details => (createResponse 400 (ValidationFailed details), s)
      | inr value =>
          match drivers (store s) !! userId with
          | Some _ => (createResponse 409 (Error "Driver profile already exists"), s)
          | None =>
              let driverId := userId in
              let driver := newDriver clock userId value in
              let store1 := with_drivers (insert driverId driver) (store s) in
              let users1 :=
                upsertUser (User.setUserType "driver" (clock 1%nat)) userId (users s) in
              (createResponse 201
                 (Registered "Driver registered successfully" (maskLicense driver)),
               mkReg store1 users1 (registered s ++ [(driverId, userId)]))
          end
      end
  end.

End Registration.

(** *** [calculateFare] of the payment service *)
Module PaymentService.

Record fareBreakdown := mkFare {
  baseFare : R;
  distanceFare : R;
  surgeMultiplier : R;
  surgeAmount : R;
  platformFee : R;
  taxAmount : R;
  totalAmount : R
}.

Inductive body :=
| Error (error : string)
| Fare (fareBreakdown : fareBreakdown).

Record response := createResponse { statusCode : nat; responseBody : body }.

Definition perKmRates (ty : string) : option R :=
  if String.eqb ty "standard" then Some (12 / 10)%R
  else if String.eqb ty "premium" then Some 2%R
  else if String.eqb ty "pool" then Some (8 / 10)%R
  else None.

(** [(currentHour >= 17 && currentHour <= 20) ||
     (currentHour >= 7 && currentHour <= 9)] *)
Definition peak (currentHour : Z) : bool :=
  ((17 <=? currentHour)%Z && (currentHour <=? 20)%Z) ||
  ((7 <=? currentHour)%Z && (currentHour <=? 9)%Z).

Section Fare.

(** [x => parseFloat(x.toFixed(2))].  The two decimals are those of the
    binary double [x], so the result depends on how the sum was rounded
    before (the code prints 9.13 for a fare whose exact value is 9.135); the
    function is left open. *)
Variable toFixed2 : R → R.

(** [calculateFare]; [currentHour] is [new Date().getHours()].  For a ride
    whose [rideType] has no entry in [perKmRates] the arithmetic runs on
    [undefined] and yields [NaN], which the reals do not have: the function
    is undefined ([None]) there. *)
Definition calculateFare (currentHour : Z) (rideId : string) (s : db)
    : option response :=
  match rides s !! rideId with
  | None => Some (createResponse 404 (Error "Ride not found"))
  | Some ride =>
      match perKmRates (Ride.rideType ride) with
      | None => None
      | Some rate =>
          let baseFare := (25 / 10)%R in
          let surgeMultiplier := if peak currentHour then (15 / 10)%R else 1%R in
          let distance :=
            if JSMath.truthyR (Ride.estimatedDistance ride)
            then Ride.estimatedDistance ride else 0%R in
          let baseAmount := (baseFare + distance * rate)%R in
          let surgeAmount := (baseAmount * surgeMultiplier)%R in
          let platformFee := (surgeAmount * (5 / 100))%R in
          let totalFare := (surgeAmount + platformFee)%R in
          let taxRate := (875 / 10000)%R in
          let taxAmount := (totalFare * taxRate)%R in
          let finalAmount := (totalFare + taxAmount)%R in
          Some (createResponse 200
                  (Fare (mkFare baseFare (distance * rate) surgeMultiplier
                           (surgeAmount - baseAmount) platformFee taxAmount
                           (toFixed2 finalAmount))))
      end
  end.

End Fare.

End PaymentService.

(** *** The browser side of the socket: reconnection

    [WebSocketService] of the web application, reduced to the fields its
    [onopen] and [onclose] callbacks and [scheduleReconnect] read and write.
    [pinging] says that the ping interval is set. *)
Module WebSocketClient.

Record client := mkClient {
  hasSocket : bool;
  isConnected : bool;
  reconnectAttempts : nat;
  pinging : bool
}.

Definition maxReconnectAttempts : nat := 5.
Definition reconnectDelay : Z := 1000.

(** [scheduleReconnect]; the second component is the delay, in milliseconds,
    of the timer it sets. *)
Definition scheduleReconnect (c : client) : client * Z :=
  let attempts := S (reconnectAttempts c) in
  (mkClient (hasSocket c) (isConnected c) attempts (pinging c),
   (reconnectDelay * 2 ^ (Z.of_nat attempts - 1))%Z).

(** [ws.onopen] *)
Definition onopen (c : client) : client :=
  mkClient (hasSocket c) true 0 true.

(** [ws.onclose], with the close code of the event. *)
Definition onclose (code : Z) (c : client) : client * option Z :=
  let c1 := mkClient (hasSocket c) false (reconnectAttempts c) false in
  if negb (code =? 1000)%Z && (reconnectAttempts c1 <? maxReconnectAttempts) then
    let '(c2, delay) := scheduleReconnect c1 in (c2, Some delay)
  else (c1, None).

(** Closes that follow one another with no [onopen] in between, and the
    timers they set. *)
Fixpoint closes (codes : list Z) (c : client) : client * list Z :=
  match codes with
  | [] => (c, [])
  | code :: rest =>
      let '(c1, d) := onclose code c in
      let '(c2, ds) := closes rest c1 in
      (c2, from_option (λ x, [x]) [] d ++ ds)
  end.

End WebSocketClient.

Module WebSocketNotions.
Import WebSocketService.

(** The three actions [message] knows. *)
Definition knownActions : list string :=
  ["location_update"; "ride_status_update"; "ping"].

(** Frames that are taken apart without error and for which the [message]
    handler finds nobody to push to: an action that is none of the known
    ones, a [location_update] whose data has no ride id, and either update
    for a ride that is not stored. *)
Definition quiet (rides : gmap string Ride.t) (frame : inbound) : Prop :=
  match frame with
  | InLocationUpdate _ _ rideId =>
      match JSMath.truthyId rideId with
      | None => True
      | Some rid => rides !! rid = None
      end
  | InRideStatusUpdate rideId _ _ =>
      match rideId with
      | None => True
      | Some rid => rides !! rid = None
      end
  | InPing => False
  | InUnknown action => action ∉ knownActions
  | InLocationUpdateNoData | InRideStatusUpdateNoData | InUnparsable => False
  end.

End WebSocketNotions.

(** Further concrete stores and requests. *)
Module MoreExamples.
Import RideService Examples.

(** The ride of rider [u1] is matched with driver [d1], who is busy. *)
Definition matchedDb : db :=
  mkDb matchedRides {[ "d1" := demoDriver "d1" "busy" "D1234567" ]} [].

Definition completeByRider : statusEvent :=
  mkStatusEvent (Some (unsignedToken "u1")) "r1" "completed" None.

(** [d2] stands on the query point (1, 1); [d1] has no position; rider [u1]
    has requested ride [r1]. *)
Definition offerDb : db := goAvailable "d2" (Loc.mk 1 1 None) raceDb.

Definition nearDriver2 : Driver.t :=
  DriverService.setAvailability "available" (demoClock 0%nat)
    (Some (Loc.mk 1 1 None)) (demoDriver "d2" "available" "D7654321").

Definition acceptByD1 : acceptEvent := mkAcceptEvent (Some (unsignedToken "d1")) "r1".

(** A position on the equator. *)
Definition equatorUpdate : DriverService.availabilityEvent :=
  DriverService.mkAvailabilityEvent (Some (unsignedToken "d1")) "available"
    (Some (Loc.mk 0 1 None)).

Definition demoRegistration (u : string) : Registration.registerEvent :=
  Registration.mkRegisterEvent (Some (unsignedToken u))
    (Registration.mkDriverBody "D5550001" demoVehicle).

Definition noDrivers : Registration.regState :=
  Registration.mkReg requestedDb ∅ [].

Definition freshClient : WebSocketClient.client :=
  WebSocketClient.mkClient true true 0 true.

End MoreExamples.

(** * Properties *)

(** ** Caller identity *)
Module UtilsFacts.
Import Utils.

Lemma truthyS_nonempty (u : string) : u ≠ "" → JSMath.truthyS u = true.
Proof.
  intros Hu. unfold JSMath.truthyS.
  destruct (String.eqb_spec u ""); [contradiction | reflexivity].
Qed.

Lemma validateToken_decoded alg cl sig u :
  sub cl = Some u → u ≠ "" → validateToken (Jwt alg cl sig) = Some cl.
Proof.
  intros Hsub Hu. unfold validateToken. simpl.
  rewrite Hsub, truthyS_nonempty by assumption. reflexivity.
Qed.

Lemma callerId_jwt alg cl sig u :
  sub cl = Some u → u ≠ "" → callerId (Some (Jwt alg cl sig)) = Some u.
Proof.
  intros Hsub Hu. unfold callerId.
  rewrite (validateToken_decoded alg cl sig u) by assumption. exact Hsub.
Qed.

(** Whatever authenticates, authenticates as a non-empty [sub]. *)
Lemma callerId_truthy auth u : callerId auth = Some u → u ≠ "".
Proof.
  unfold callerId, validateToken. destruct auth as [tk|]; [|discriminate].
  destruct (jwt_decode tk) as [d|]; [|discriminate].
  destruct (sub d) as [s|] eqn:Hs; [|discriminate].
  destruct (JSMath.truthyS s) eqn:Ht; [|discriminate].
  rewrite Hs. intros [= <-] ->. discriminate Ht.
Qed.

End UtilsFacts.

(** ** The ride service *)
Module RideFacts.
Import RideService Examples.

Lemma eqb_refl_false (a b : string) : a ≠ b → String.eqb a b = false.
Proof. intros H. destruct (String.eqb_spec a b); [contradiction | reflexivity]. Qed.

(** What each branch of [acceptRide] returns. *)
Lemma acceptRide_ok clock ev s d ride dr :
  Utils.callerId (acc_authorization ev) = Some d →
  rides s !! acc_rideId ev = Some ride →
  Ride.status ride = "requested" →
  drivers s !! d = Some dr →
  Driver.status dr = "available" →
  acceptRide clock ev s =
    (createResponse 200
       (RideAccepted (acc_rideId ev) (Ride.userId ride)
          (Ride.pickupLocation ride) (Ride.dropoffLocation ride)),
     mkDb (alter (assignDriver d (clock 0%nat)) (acc_rideId ev) (rides s))
          (alter (setDriverStatus "busy" (clock 1%nat)) d (drivers s))
          (events s ++ [RideMatched (acc_rideId ev) d (Ride.userId ride)])).
Proof.
  intros Hc Hr Hst Hd Hav. unfold acceptRide.
  rewrite Hc, Hr, Hst. simpl. rewrite Hd, Hav. reflexivity.
Qed.

Lemma acceptRide_taken clock ev s d ride :
  Utils.callerId (acc_authorization ev) = Some d →
  rides s !! acc_rideId ev = Some ride →
  Ride.status ride ≠ "requested" →
  acceptRide clock ev s =
    (createResponse 409 (Error "Ride is no longer available"), s).
Proof.
  intros Hc Hr Hst. unfold acceptRide.
  rewrite Hc, Hr, (eqb_refl_false _ _ Hst). reflexivity.
Qed.

(** Once a ride is not [requested], further accepts bounce off it and leave
    the whole store as it is. *)
Lemma acceptAll_taken clock rid ride s ds evs :
  rides s !! rid = Some ride →
  Ride.status ride ≠ "requested" →
  Forall2 (λ d e, Utils.callerId (acc_authorization e) = Some d ∧ acc_rideId e = rid)
          ds evs →
  acceptAll clock evs s =
    (replicate (length evs)
       (createResponse 409 (Error "Ride is no longer available")), s).
Proof.
  intros Hr Hst Hall. induction Hall as [|d e ds evs [Hc Hid] _ IH]; [reflexivity|].
  simpl. rewrite (acceptRide_taken clock e s d ride); [|assumption|by rewrite Hid|assumption].
  rewrite IH. reflexivity.
Qed.

(** Calls that run one after another: the first call answers 200, every
    later call answers 409 "Ride is no longer available", the ride ends
    [matched] with the first caller as its [driverId], and the driver item
    of every later caller is what it was. *)
Lemma acceptAll_first_wins clock rid ride s d ds ev evs :
  rides s !! rid = Some ride →
  Ride.status ride = "requested" →
  NoDup (d :: ds) →
  Forall2 (λ d e, Utils.callerId (acc_authorization e) = Some d ∧ acc_rideId e = rid)
          (d :: ds) (ev :: evs) →
  Forall (λ d, ∃ dr, drivers s !! d = Some dr ∧ Driver.status dr = "available")
         (d :: ds) →
  (acceptAll clock (ev :: evs) s).1 =
    createResponse 200
      (RideAccepted rid (Ride.userId ride)
         (Ride.pickupLocation ride) (Ride.dropoffLocation ride))
    :: replicate (length evs)
         (createResponse 409 (Error "Ride is no longer available")) ∧
  (∃ r, rides (acceptAll clock (ev :: evs) s).2 !! rid = Some r ∧
        Ride.driverId r = Some d ∧ Ride.status r = "matched") ∧
  (∀ loser, loser ∈ ds →
     drivers (acceptAll clock (ev :: evs) s).2 !! loser = drivers s !! loser).
Proof.
  intros Hr Hst Hnd Hall Hav.
  apply Forall2_cons_1 in Hall as [[Hc Hid] Hrest].
  apply Forall_cons in Hav as [(dr & Hd & Hdr) _].
  apply NoDup_cons in Hnd as [Hfresh _].
  subst rid. simpl.
  rewrite (acceptRide_ok clock ev s d ride dr) by assumption.
  set (s1 := mkDb _ _ _).
  assert (Hr1 : rides s1 !! acc_rideId ev
                = Some (assignDriver d (clock 0%nat) ride)).
  { unfold s1. simpl. rewrite lookup_alter_eq, Hr. reflexivity. }
  rewrite (acceptAll_taken clock (acc_rideId ev) _ s1 ds evs Hr1);
    [|discriminate|assumption].
  simpl. split; [reflexivity|]. split.
  - eexists. split; [exact Hr1|]. split; reflexivity.
  - intros loser Hin. unfold s1. simpl.
    apply lookup_alter_ne. intros ->. contradiction.
Qed.

(** C1, as stated, fails: the two invocations take turns between their
    awaits; both read the ride while it is still [requested], both write, both
    answer 200.  The ride ends with [d2] as its driver while [d1], who was
    also told it won, has been set to [busy]. *)
Lemma interleaved_accepts_both_succeed :
  let out := runSchedule (λ _, demoClock) [0; 1; 0; 1; 0; 1; 0; 1; 0; 1]%nat
               (AcceptStart <$> raceEvents) raceDb in
  out.1 = [AcceptDone (createResponse 200 (RideAccepted "r1" "u1" demoLoc demoLoc));
           AcceptDone (createResponse 200 (RideAccepted "r1" "u1" demoLoc demoLoc))] ∧
  Ride.driverId <$> rides out.2 !! "r1" = Some (Some "d2") ∧
  Driver.status <$> drivers out.2 !! "d1" = Some "busy" ∧
  Driver.status <$> drivers out.2 !! "d2" = Some "busy".
Proof. vm_compute. repeat split; reflexivity. Qed.

(** The task machine is the handler: stepping one invocation through its five
    requests, with nobody in between, is [acceptRide]. *)
Lemma acceptRide_is_five_steps clock ev s :
  let step ts := acceptStep clock ts.1 ts.2 in
  step (step (step (step (step (AcceptStart ev, s)))))
  = (AcceptDone (acceptRide clock ev s).1, (acceptRide clock ev s).2).
Proof.
  unfold acceptRide. simpl.
  destruct (Utils.callerId (acc_authorization ev)) as [d|]; [|reflexivity].
  simpl. destruct (rides s !! acc_rideId ev) as [ride|]; [|reflexivity].
  simpl. destruct (negb (String.eqb (Ride.status ride) "requested")); [reflexivity|].
  simpl. destruct (drivers s !! d) as [dr|]; [|reflexivity].
  simpl. destruct (negb (String.eqb (Driver.status dr) "available")); reflexivity.
Qed.

(** *** Calls that overlap

    Whatever the schedule, the race keeps [raceInv]. *)

Import Race.

Lemma wrote_step clock t s :
  wrote t = true → wrote (acceptStep clock t s).1 = true.
Proof. destruct t; simpl; try discriminate; auto. Qed.

Lemma remaining_step clock t s :
  remaining (acceptStep clock t s).1 ≤ remaining t - 1.
Proof.
  destruct t as [ev| | | | |]; simpl; try lia.
  - destruct (Utils.callerId _); simpl; [|lia].
    destruct (rides s !! _); simpl; [|lia].
    destruct (negb _); simpl; lia.
  - destruct (drivers s !! _); simpl; [|lia].
    destruct (negb _); simpl; lia.
Qed.

Lemma isDone_remaining t : isDone t = true ↔ remaining t = 0.
Proof. destruct t; simpl; split; intros; try discriminate; try lia; reflexivity. Qed.

Lemma runSchedule_length clocks sched pool s :
  length (runSchedule clocks sched pool s).1 = length pool.
Proof.
  revert pool s. induction sched as [|i rest IH]; intros pool s; simpl; [reflexivity|].
  destruct (pool !! i) as [t|]; [|apply IH].
  destruct (acceptStep (clocks i) t s) as [t' s']. rewrite IH. apply length_insert.
Qed.

Lemma runSchedule_remaining clocks sched pool s i t :
  pool !! i = Some t →
  ∃ t', (runSchedule clocks sched pool s).1 !! i = Some t' ∧
        remaining t' ≤ remaining t - count_occ Nat.eq_dec sched i.
Proof.
  revert pool s t. induction sched as [|j rest IH]; intros pool s t Hi; simpl.
  - exists t. split; [exact Hi|lia].
  - destruct (pool !! j) as [tj|] eqn:Hj.
    + destruct (acceptStep (clocks j) tj s) as [t' s'] eqn:Hstep.
      destruct (Nat.eq_dec j i) as [->|Hne].
      * rewrite Hi in Hj. injection Hj as <-.
        destruct (IH (<[i:=t']> pool) s' t') as (t'' & Hl & Hr).
        { apply list_lookup_insert_eq. by eapply lookup_lt_Some. }
        exists t''. split; [exact Hl|].
        pose proof (remaining_step (clocks i) t s) as Hs. rewrite Hstep in Hs. simpl in Hs. lia.
      * destruct (IH (<[j:=t']> pool) s' t) as (t'' & Hl & Hr).
        { rewrite list_lookup_insert_ne by done. exact Hi. }
        exists t''. split; [exact Hl|lia].
    + destruct (Nat.eq_dec j i) as [->|Hne]; [congruence|]. by apply IH.
Qed.

Section RaceInvariant.
Variables (s0 : db) (rideId : string) (ride0 : Ride.t).
Variables (ds : list string) (evs : list acceptEvent).
Hypothesis Hride0 : Ride.status ride0 = "requested".
Hypothesis Hnd : NoDup ds.
Hypothesis Hevs :
  Forall2 (λ d e, Utils.callerId (acc_authorization e) = Some d ∧ acc_rideId e = rideId)
          ds evs.
Hypothesis Hav :
  Forall (λ d, ∃ dr, drivers s0 !! d = Some dr ∧ Driver.status dr = "available") ds.

Lemma raceInv_init :
  rides s0 !! rideId = Some ride0 →
  raceInv s0 rideId ride0 ds evs (AcceptStart <$> evs) s0.
Proof.
  intros Hr. split; [|split].
  - rewrite length_fmap. symmetry. by eapply Forall2_length.
  - intros i d ev t Hd He Ht. rewrite list_lookup_fmap, He in Ht.
    injection Ht as <-. simpl. split; reflexivity.
  - exists ride0. split; [exact Hr | by left].
Qed.

Lemma raceInv_step clock pool s i t :
  raceInv s0 rideId ride0 ds evs pool s →
  pool !! i = Some t →
  raceInv s0 rideId ride0 ds evs
    (<[i := (acceptStep clock t s).1]> pool) (acceptStep clock t s).2.
Proof.
  intros (Hlen & Htasks & r & Hr & Hrinv) Hi.
  assert (Hlt : i < length ds) by (rewrite <- Hlen; by eapply lookup_lt_Some).
  destruct (lookup_lt_is_Some_2 ds i Hlt) as [d Hd].
  destruct (Forall2_lookup_l _ _ _ _ _ Hevs Hd) as (ev & He & Hc & Hid).
  pose proof (Htasks i d ev t Hd He Hi) as Ht.
  (* the other invocations keep their invariant when only driver [d] or the ride moves *)
  assert (Hothers : ∀ s',
    (∀ d', d' ≠ d → drivers s' !! d' = drivers s !! d') →
    (taken rideId s → taken rideId s') →
    ∀ j dj evj tj, j ≠ i → ds !! j = Some dj → evs !! j = Some evj → pool !! j = Some tj →
                  taskInv s0 rideId ride0 s' dj evj tj).
  { intros s' Hdrv Htk j dj evj tj Hji Hdj Hej Htj.
    assert (Hne : dj ≠ d).
    { intros ->. apply Hji. eapply NoDup_lookup; eassumption. }
    pose proof (Htasks j dj evj tj Hdj Hej Htj) as Hj.
    assert (Hu : untouched s0 s dj → untouched s0 s' dj)
      by (unfold untouched; rewrite (Hdrv dj Hne); done).
    assert (Hb : busied s0 s dj → busied s0 s' dj)
      by (unfold busied; rewrite (Hdrv dj Hne); done).
    destruct tj; simpl in *; intuition. }
  assert (Hwit : ∀ t', (wrote t = true → wrote t' = true) →
    Ride.status r = "matched" ∧
      (∃ i0 d0 t0, ds !! i0 = Some d0 ∧ pool !! i0 = Some t0 ∧ wrote t0 = true ∧
                   Ride.driverId r = Some d0) →
    Ride.status r = "matched" ∧
      (∃ i0 d0 t0, ds !! i0 = Some d0 ∧ <[i:=t']> pool !! i0 = Some t0 ∧ wrote t0 = true ∧
                   Ride.driverId r = Some d0)).
  { intros t' Hw (Hm & i0 & d0 & t0 & Hd0 & Ht0 & Hw0 & Hdr). split; [exact Hm|].
    destruct (decide (i0 = i)) as [->|Hne].
    - exists i, d0, t'. rewrite Hi in Ht0. injection Ht0 as <-.
      rewrite list_lookup_insert_eq by (by eapply lookup_lt_Some). auto.
    - exists i0, d0, t0. rewrite list_lookup_insert_ne by done. auto. }
  assert (Hbuild : ∀ t' s',
    taskInv s0 rideId ride0 s' d ev t' →
    (∀ d', d' ≠ d → drivers s' !! d' = drivers s !! d') →
    (taken rideId s → taken rideId s') →
    (∃ r', rides s' !! rideId = Some r' ∧
       (r' = ride0 ∨
        (Ride.status r' = "matched" ∧
         ∃ i0 d0 t0, ds !! i0 = Some d0 ∧ <[i:=t']> pool !! i0 = Some t0 ∧
                     wrote t0 = true ∧ Ride.driverId r' = Some d0))) →
    raceInv s0 rideId ride0 ds evs (<[i:=t']> pool) s').
  { intros t' s' Hti Hdrv Htk Hr'. split; [|split; [|exact Hr']].
    - by rewrite length_insert.
    - intros j dj evj tj Hdj Hej Htj.
      destruct (decide (j = i)) as [->|Hji].
      + rewrite list_lookup_insert_eq in Htj by (by eapply lookup_lt_Some).
        injection Htj as <-. rewrite Hd in Hdj. rewrite He in Hej.
        injection Hdj as <-. injection Hej as <-. exact Hti.
      + rewrite list_lookup_insert_ne in Htj by done.
        by apply (Hothers s' Hdrv Htk j). }
  assert (Hsame : ∀ t', taskInv s0 rideId ride0 s d ev t' →
    (wrote t = true → wrote t' = true) →
    raceInv s0 rideId ride0 ds evs (<[i:=t']> pool) s).
  { intros t' Hti Hw. apply Hbuild; [exact Hti|done|done|].
    exists r. split; [exact Hr|]. destruct Hrinv as [->|Hm]; [by left|right].
    by apply Hwit. }
  destruct t as [ev'|d' rid' r'|d' rid' r'|d' rid' r'|d' rid' r'|resp]; simpl in Ht.
  - (* the read of the ride *)
    destruct Ht as [-> Hu]. simpl. rewrite Hc, Hid, Hr.
    destruct (String.eqb_spec (Ride.status r) "requested") as [Hreq|Hreq]; simpl.
    + apply Hsame; [|discriminate]. simpl.
      destruct Hrinv as [->|[Hm _]]; [done|]. rewrite Hm in Hreq. discriminate.
    + apply Hsame; [|discriminate]. simpl. right. split; [reflexivity|]. split; [exact Hu|].
      destruct Hrinv as [->|[Hm _]]; [contradiction|]. by exists r.
  - (* the read of the driver *)
    destruct Ht as (-> & -> & -> & Hu). simpl.
    rewrite Forall_forall in Hav. destruct (Hav d) as (dr & Hdr & Hst).
    { by eapply list_elem_of_lookup_2. }
    rewrite Hu, Hdr, Hst. simpl. apply Hsame; [|discriminate]. simpl. done.
  - (* the write of the ride *)
    destruct Ht as (-> & -> & -> & Hu). simpl.
    assert (Hr' : rides (with_rides (alter (assignDriver d (clock 0%nat)) rideId) s) !! rideId
                  = Some (assignDriver d (clock 0%nat) r))
      by (simpl; rewrite lookup_alter_eq, Hr; reflexivity).
    assert (Htk : taken rideId (with_rides (alter (assignDriver d (clock 0%nat)) rideId) s))
      by (eexists; split; [exact Hr'|reflexivity]).
    apply Hbuild; [simpl; done|done|done|].
    eexists. split; [exact Hr'|]. right. split; [reflexivity|].
    exists i, d, (AcceptUpdateDriver d rideId ride0).
    rewrite list_lookup_insert_eq by (by eapply lookup_lt_Some). done.
  - (* the write of the driver *)
    destruct Ht as (-> & -> & -> & Hu & Htk). simpl.
    rewrite Forall_forall in Hav. destruct (Hav d) as (dr & Hdr & Hst).
    { by eapply list_elem_of_lookup_2. }
    apply Hbuild.
    + simpl. split; [done|]. split; [done|]. split; [done|]. split; [|exact Htk].
      exists dr, (clock 1%nat). split; [exact Hdr|].
      simpl. rewrite lookup_alter_eq, Hu, Hdr. reflexivity.
    + intros d' Hne. simpl. by rewrite lookup_alter_ne.
    + done.
    + exists r. split; [exact Hr|]. destruct Hrinv as [->|Hm]; [by left|right].
      by apply Hwit.
  - (* the publication *)
    destruct Ht as (-> & -> & -> & Hb & Htk). simpl.
    apply Hbuild.
    + simpl. left. done.
    + done.
    + done.
    + exists r. split; [exact Hr|]. destruct Hrinv as [->|Hm]; [by left|right].
      by apply Hwit.
  - simpl. by apply Hsame.
Qed.

Lemma raceInv_run clocks sched pool s :
  raceInv s0 rideId ride0 ds evs pool s →
  raceInv s0 rideId ride0 ds evs
    (runSchedule clocks sched pool s).1 (runSchedule clocks sched pool s).2.
Proof.
  revert pool s. induction sched as [|i rest IH]; intros pool s Hinv; simpl; [exact Hinv|].
  destruct (pool !! i) as [t|] eqn:Hi; [|by apply IH].
  pose proof (raceInv_step (clocks i) pool s i t Hinv Hi) as Hstep.
  destruct (acceptStep (clocks i) t s) as [t' s']. by apply IH.
Qed.

End RaceInvariant.

(** C1 (amended).  Distinct available drivers call [acceptRide] for the same
    [requested] ride, their store requests interleaved by an arbitrary
    schedule.  Every call returns once it has had five turns.  When all have
    returned, each call has answered either 200 or 409 "Ride is no longer
    available"; a caller answered 200 is [busy], a caller answered 409 has
    its driver item unchanged; at least one call was answered 200, the ride
    is [matched], and its [driverId] is that of a caller answered 200.  When
    the calls run one after another, the first is answered 200 and all later
    ones 409. *)
Theorem accept_race_outcome clocks sched rid ride s ds evs :
  rides s !! rid = Some ride →
  Ride.status ride = "requested" →
  NoDup ds →
  Forall2 (λ d e, Utils.callerId (acc_authorization e) = Some d ∧ acc_rideId e = rid)
          ds evs →
  Forall (λ d, ∃ dr, drivers s !! d = Some dr ∧ Driver.status dr = "available") ds →
  ds ≠ [] →
  let out := runSchedule clocks sched (AcceptStart <$> evs) s in
  ((∀ i, i < length evs → 5 ≤ count_occ Nat.eq_dec sched i) →
     Forall (λ t, isDone t = true) out.1) ∧
  (Forall (λ t, isDone t = true) out.1 →
     (∀ i d, ds !! i = Some d →
        (out.1 !! i = Some (AcceptDone (accepted rid ride)) ∧ busied s out.2 d) ∨
        (out.1 !! i = Some (AcceptDone alreadyMatched) ∧
         drivers out.2 !! d = drivers s !! d)) ∧
     (∃ i d r, ds !! i = Some d ∧
               out.1 !! i = Some (AcceptDone (accepted rid ride)) ∧
               rides out.2 !! rid = Some r ∧
               Ride.driverId r = Some d ∧ Ride.status r = "matched")) ∧
  (∀ clock d0 ds', ds = d0 :: ds' →
     (acceptAll clock evs s).1
     = accepted rid ride :: replicate (length ds') alreadyMatched ∧
     (∃ r, rides (acceptAll clock evs s).2 !! rid = Some r ∧
           Ride.driverId r = Some d0 ∧ Ride.status r = "matched") ∧
     (∀ loser, loser ∈ ds' →
        drivers (acceptAll clock evs s).2 !! loser = drivers s !! loser)).
Proof.
  intros Hr Hst Hnd Hevs Hav Hne out. split; [|split].
  - intros Hturns. apply Forall_lookup. intros i t Ht.
    assert (Hi : i < length evs).
    { apply lookup_lt_Some in Ht. unfold out in Ht.
      by rewrite runSchedule_length, length_fmap in Ht. }
    destruct (lookup_lt_is_Some_2 evs i Hi) as [ev He].
    destruct (runSchedule_remaining clocks sched (AcceptStart <$> evs) s i (AcceptStart ev))
      as (t' & Ht' & Hrem).
    { by rewrite list_lookup_fmap, He. }
    fold out in Ht'. rewrite Ht in Ht'. injection Ht' as <-.
    apply isDone_remaining. specialize (Hturns i Hi). simpl in Hrem. lia.
  - intros Hdone.
    pose proof (raceInv_run s rid ride ds evs Hst Hnd Hevs Hav clocks sched _ _
                  (raceInv_init s rid ride ds evs Hevs Hr))
      as (Hlen & Htasks & r & Hrr & Hrinv).
    fold out in Hlen, Htasks, Hrr, Hrinv.
    assert (Hcase : ∀ i d, ds !! i = Some d →
      (out.1 !! i = Some (AcceptDone (accepted rid ride)) ∧ busied s out.2 d ∧ taken rid out.2) ∨
      (out.1 !! i = Some (AcceptDone alreadyMatched) ∧
       drivers out.2 !! d = drivers s !! d ∧ taken rid out.2)).
    { intros i d Hd.
      destruct (Forall2_lookup_l _ _ _ _ _ Hevs Hd) as (ev & He & _).
      assert (Hi : i < length out.1) by (rewrite Hlen; by eapply lookup_lt_Some).
      destruct (lookup_lt_is_Some_2 out.1 i Hi) as [t Ht].
      pose proof (Htasks i d ev t Hd He Ht) as Hinv.
      rewrite Forall_lookup in Hdone. specialize (Hdone i t Ht).
      destruct t; try discriminate. simpl in Hinv.
      destruct Hinv as [(-> & Hb & Htk)|(-> & Hu & Htk)]; [left|right]; done. }
    split.
    { intros i d Hd. destruct (Hcase i d Hd) as [(? & ? & _)|(? & ? & _)]; [left|right]; done. }
    assert (Htaken : taken rid out.2).
    { destruct ds as [|d0 ds']; [contradiction|].
      destruct (Hcase 0 d0 eq_refl) as [(_ & _ & ?)|(_ & _ & ?)]; done. }
    destruct Htaken as (r' & Hr' & Hm). rewrite Hrr in Hr'. injection Hr' as <-.
    destruct Hrinv as [->|(_ & i & d & t & Hd & Ht & Hw & Hdr)].
    { rewrite Hst in Hm. discriminate. }
    exists i, d, r. split; [exact Hd|].
    destruct (Hcase i d Hd) as [(Hok & _)|(Hno & _)].
    + done.
    + rewrite Ht in Hno. injection Hno as ->. discriminate Hw.
  - intros clock d0 ds' ->.
    destruct evs as [|ev evs']; [by apply Forall2_cons_nil_inv in Hevs|].
    assert (Hl : length ds' = length evs').
    { apply Forall2_length in Hevs. simpl in Hevs. lia. }
    rewrite Hl.
    apply (acceptAll_first_wins clock rid ride s d0 ds' ev evs'); assumption.
Qed.

Lemma accept_race_outcome_witness :
  let out := runSchedule (λ _, demoClock) [0; 0; 1; 0; 1; 0; 0; 1; 1; 1]%nat
               (AcceptStart <$> raceEvents) raceDb in
  ∃ i d r, ["d1"; "d2"] !! i = Some d ∧
           out.1 !! i
           = Some (AcceptDone (accepted "r1" (demoRide "r1" "u1" None "requested"))) ∧
           rides out.2 !! "r1" = Some r ∧
           Ride.driverId r = Some d ∧ Ride.status r = "matched".
Proof.
  destruct (accept_race_outcome (λ _, demoClock) [0; 0; 1; 0; 1; 0; 0; 1; 1; 1]%nat
              "r1" (demoRide "r1" "u1" None "requested") raceDb ["d1"; "d2"] raceEvents)
    as (Hreturn & Houtcome & _).
  - reflexivity.
  - reflexivity.
  - apply NoDup_cons; split; [|apply NoDup_singleton].
    intros H%list_elem_of_singleton. discriminate H.
  - repeat constructor.
  - repeat constructor; eexists; (split; [vm_compute; reflexivity | reflexivity]).
  - discriminate.
  - apply Houtcome, Hreturn. intros [|[|i]] Hi; simpl in *; lia.
Defined.

(** *** What the handlers do to the rides table *)

Lemma requestRide_created clock uuid ev s uid value :
  Utils.callerId (req_authorization ev) = Some uid →
  schemas_ride_validate (req_body ev) = inr value →
  queryUserRides uid "active" (rides s) = [] →
  requestRide clock uuid ev s =
    (createResponse 201
       (RideCreated uuid "requested"
          (Ride.estimatedFare (newRide clock uuid uid value))
          (Ride.estimatedDistance (newRide clock uuid uid value))),
     mkDb (<[uuid := newRide clock uuid uid value]> (rides s)) (drivers s)
          (events s ++ [RideRequested uuid uid (pickupLocation value)
                          (default "standard" (rideType value))
                          (Ride.estimatedFare (newRide clock uuid uid value))])).
Proof.
  intros Hc Hv Hq. unfold requestRide. rewrite Hc, Hv, Hq. reflexivity.
Qed.

Lemma requestRide_rides clock uuid ev s :
  rides (requestRide clock uuid ev s).2 = rides s ∨
  ∃ uid value,
    Utils.callerId (req_authorization ev) = Some uid ∧
    rides (requestRide clock uuid ev s).2
    = <[uuid := newRide clock uuid uid value]> (rides s).
Proof.
  unfold requestRide.
  destruct (Utils.callerId (req_authorization ev)) as [uid|]; [|by left].
  destruct (schemas_ride_validate (req_body ev)) as [e|value]; [by left|].
  destruct (bool_decide _); [by left|].
  right. by exists uid, value.
Qed.

Lemma acceptRide_rides clock ev s :
  rides (acceptRide clock ev s).2 = rides s ∨
  ∃ d ride,
    Utils.callerId (acc_authorization ev) = Some d ∧
    rides s !! acc_rideId ev = Some ride ∧
    Ride.status ride = "requested" ∧
    rides (acceptRide clock ev s).2
    = alter (assignDriver d (clock 0%nat)) (acc_rideId ev) (rides s).
Proof.
  unfold acceptRide.
  destruct (Utils.callerId (acc_authorization ev)) as [d|] eqn:Hc; [|by left].
  destruct (rides s !! acc_rideId ev) as [ride|] eqn:Hr; [|by left].
  destruct (String.eqb_spec (Ride.status ride) "requested") as [Hst|]; [|by left].
  simpl. destruct (drivers s !! d) as [dr|]; [|by left].
  destruct (negb _); [by left|].
  right. by exists d, ride.
Qed.

Lemma authorized_iff (ride : Ride.t) (uid : string) :
  negb (String.eqb (Ride.userId ride) uid) &&
  negb (bool_decide (Ride.driverId ride = Some uid)) = false
  ↔ Ride.userId ride = uid ∨ Ride.driverId ride = Some uid.
Proof.
  destruct (String.eqb_spec (Ride.userId ride) uid);
    destruct (bool_decide_reflect (Ride.driverId ride = Some uid)); simpl;
    intuition congruence.
Qed.

Lemma updateRideStatus_rides clock ev s :
  rides (updateRideStatus clock ev s).2 = rides s ∨
  ∃ uid ride,
    Utils.callerId (upd_authorization ev) = Some uid ∧
    upd_status ev ∈ validStatuses ∧
    rides s !! upd_rideId ev = Some ride ∧
    (Ride.userId ride = uid ∨ Ride.driverId ride = Some uid) ∧
    rides (updateRideStatus clock ev s).2
    = alter (applyUpdates (buildUpdates clock (upd_status ev) ride))
            (upd_rideId ev) (rides s).
Proof.
  unfold updateRideStatus.
  destruct (Utils.callerId (upd_authorization ev)) as [uid|] eqn:Hc; [|by left].
  destruct (bool_decide_reflect (upd_status ev ∈ validStatuses)) as [Hv|]; [|by left].
  simpl. destruct (rides s !! upd_rideId ev) as [ride|] eqn:Hr; [|by left].
  destruct (negb _ && negb _) eqn:Hauth; [by left|].
  apply authorized_iff in Hauth.
  right. exists uid, ride. repeat split; try assumption.
  destruct (if String.eqb _ _ then _ else _) as [did|]; [|reflexivity].
  simpl. destruct (drivers s !! did); reflexivity.
Qed.

Lemma buildUpdates_status clock st ride :
  u_status (buildUpdates clock st ride) = st.
Proof.
  unfold buildUpdates.
  destruct (String.eqb st "in-progress"); [reflexivity|].
  destruct (String.eqb st "completed"); reflexivity.
Qed.

(** A successful update stores the target status and nothing else of the
    state machine: the stored [driverId] stays. *)
Lemma updateRideStatus_sets clock ev s uid ride :
  Utils.callerId (upd_authorization ev) = Some uid →
  upd_status ev ∈ validStatuses →
  rides s !! upd_rideId ev = Some ride →
  Ride.userId ride = uid ∨ Ride.driverId ride = Some uid →
  rides (updateRideStatus clock ev s).2
  = alter (applyUpdates (buildUpdates clock (upd_status ev) ride))
          (upd_rideId ev) (rides s).
Proof.
  intros Hc Hv Hr Hauth. unfold updateRideStatus.
  rewrite Hc, (bool_decide_eq_true_2 _ Hv), Hr. simpl.
  apply authorized_iff in Hauth. rewrite Hauth.
  destruct (if String.eqb _ _ then _ else _) as [did|]; [|reflexivity].
  simpl. destruct (drivers s !! did); reflexivity.
Qed.


(** *** The duplicate-ride check *)

(** The check asks the index for rides of the caller whose status is
    ['active'].  No handler ever writes that value, so on any table the
    handlers can produce the answer is empty. *)
Lemma queryUserRides_no_active uid (t : gmap string Ride.t) :
  (∀ k r, t !! k = Some r → Ride.status r ∈ lifecycle) →
  queryUserRides uid "active" t = [].
Proof.
  intros Hlife. unfold queryUserRides.
  destruct (filter _ _) as [|r l] eqn:Hf; [reflexivity|].
  assert (Hin : r ∈ filter (λ r, Ride.userId r = uid ∧ Ride.status r = "active")
                      (map_to_list t).*2) by (rewrite Hf; left).
  apply list_elem_of_filter in Hin as [[_ Hact] Hin].
  apply list_elem_of_fmap in Hin as ([k r'] & -> & Hin).
  apply elem_of_map_to_list in Hin. apply Hlife in Hin.
  simpl in Hact. rewrite Hact in Hin.
  revert Hin. compute_done.
Qed.

Lemma requestRide_never_conflicts clock uuid ev s uid value :
  (∀ k r, rides s !! k = Some r → Ride.status r ∈ lifecycle) →
  Utils.callerId (req_authorization ev) = Some uid →
  schemas_ride_validate (req_body ev) = inr value →
  statusCode (requestRide clock uuid ev s).1 = 201 ∧
  rides (requestRide clock uuid ev s).2
  = <[uuid := newRide clock uuid uid value]> (rides s).
Proof.
  intros Hlife Hc Hv.
  rewrite (requestRide_created clock uuid ev s uid value Hc Hv
             (queryUserRides_no_active uid _ Hlife)).
  split; reflexivity.
Qed.

(** C4.  Rider [u1] holds a ride in state [requested] and asks for another
    one: the handler answers 201 and stores a second [requested] ride of the
    same rider next to the first. *)
Theorem second_request_is_accepted :
  let ev := mkRequestEvent (Some (unsignedToken "u1")) demoBody in
  let out := requestRide demoClock "r2" ev requestedDb in
  (Ride.userId <$> rides requestedDb !! "r1" = Some "u1" ∧
   Ride.status <$> rides requestedDb !! "r1" = Some "requested") ∧
  statusCode out.1 = 201 ∧
  (Ride.userId <$> rides out.2 !! "r1" = Some "u1" ∧
   Ride.status <$> rides out.2 !! "r1" = Some "requested") ∧
  (Ride.userId <$> rides out.2 !! "r2" = Some "u1" ∧
   Ride.status <$> rides out.2 !! "r2" = Some "requested").
Proof. vm_compute. repeat split; reflexivity. Qed.

(** *** Status updates *)

(** C2, as stated, fails: the rider sends [en-route] for a ride that is
    [completed]; the answer is 200 and the stored state goes back to
    [en-route]. *)
Lemma completed_ride_accepts_update :
  let ev := mkStatusEvent (Some (unsignedToken "u1")) "r1" "en-route" None in
  let out := updateRideStatus demoClock ev completedDb in
  Ride.status <$> rides completedDb !! "r1" = Some "completed" ∧
  out.1 = createResponse 200 (Message "Ride status updated successfully") ∧
  Ride.status <$> rides out.2 !! "r1" = Some "en-route".
Proof. vm_compute. repeat split; reflexivity. Qed.

(** C2 (amended).  [updateRideStatus] checks the target, not the edge.  A
    target outside [validStatuses] is answered 400 and changes nothing; for a
    target inside it, sent by the rider or the assigned driver, the ride takes
    the target status whatever its current status is, the terminal ones
    included; no other ride is touched.  [acceptRide] is the only writer of
    [matched], and writes it over [requested] only. *)
Theorem updateRideStatus_checks_target_only clock ev s uid :
  Utils.callerId (upd_authorization ev) = Some uid →
  (upd_status ev ∉ validStatuses →
     updateRideStatus clock ev s =
       (createResponse 400
          (Error "Invalid status. Must be one of: en-route, arrived, in-progress, completed, cancelled"),
        s)) ∧
  (upd_status ev ∈ validStatuses →
     ∀ ride, rides s !! upd_rideId ev = Some ride →
       Ride.userId ride = uid ∨ Ride.driverId ride = Some uid →
       ∃ r, rides (updateRideStatus clock ev s).2 !! upd_rideId ev = Some r ∧
            Ride.status r = upd_status ev ∧
            Ride.driverId r = Ride.driverId ride) ∧
  (∀ k, k ≠ upd_rideId ev →
     rides (updateRideStatus clock ev s).2 !! k = rides s !! k) ∧
  (∀ clock' ev' k r r',
     rides s !! k = Some r →
     rides (acceptRide clock' ev' s).2 !! k = Some r' →
     Ride.status r' = Ride.status r ∨
     (Ride.status r = "requested" ∧ Ride.status r' = "matched")).
Proof.
  intros Hc. repeat split.
  - intros Hv. unfold updateRideStatus.
    rewrite Hc, (bool_decide_eq_false_2 _ Hv). reflexivity.
  - intros Hv ride Hr Hauth.
    rewrite (updateRideStatus_sets clock ev s uid ride Hc Hv Hr Hauth).
    rewrite lookup_alter_eq, Hr. simpl. eexists. split; [reflexivity|].
    split; [apply buildUpdates_status | reflexivity].
  - intros k Hk.
    destruct (updateRideStatus_rides clock ev s) as [->|(u & r & _ & _ & _ & _ & ->)];
      [reflexivity|].
    by apply lookup_alter_ne.
  - intros clock' ev' k r r' Hr Hr'.
    destruct (acceptRide_rides clock' ev' s) as [Hsame|(d & ride & _ & Hride & Hst & Heq)].
    + rewrite Hsame, Hr in Hr'. injection Hr' as <-. by left.
    + rewrite Heq in Hr'. destruct (decide (acc_rideId ev' = k)) as [<-|Hne].
      * rewrite lookup_alter_eq, Hride in Hr'. simpl in Hr'. injection Hr' as <-.
        right. split; [congruence | reflexivity].
      * rewrite lookup_alter_ne, Hr in Hr' by assumption. injection Hr' as <-. by left.
Qed.

Lemma updateRideStatus_checks_target_only_witness :
  let ev := mkStatusEvent (Some (unsignedToken "u1")) "r1" "cancelled" None in
  ∃ r, rides (updateRideStatus demoClock ev completedDb).2 !! "r1" = Some r ∧
       Ride.status r = "cancelled" ∧ Ride.driverId r = Some "d1".
Proof.
  pose (ev := mkStatusEvent (Some (unsignedToken "u1")) "r1" "cancelled" None).
  destruct (updateRideStatus_checks_target_only demoClock ev completedDb "u1")
    as (_ & Hset & _); [reflexivity|].
  apply (Hset ltac:(compute_done) (demoRide "r1" "u1" (Some "d1") "completed")).
  - reflexivity.
  - left. reflexivity.
Defined.

(** *** The driver field along the life of a ride *)

Lemma validStatuses_lifecycle st :
  st ∈ validStatuses →
  st ∈ lifecycle ∧ st ≠ "requested" ∧ st ≠ "matched".
Proof.
  unfold validStatuses, lifecycle. intros H.
  repeat (apply elem_of_cons in H as [->|H]; [by split; [compute_done|]|]).
  by apply elem_of_nil in H.
Qed.

Lemma runCall_preserves c s : ridesInv s → ridesInv (runCall c s).2.
Proof.
  intros Hinv k r. destruct c as [clock uuid ev|clock ev|clock ev]; simpl.
  - destruct (requestRide_rides clock uuid ev s) as [->|(uid & value & _ & ->)];
      [apply Hinv|].
    destruct (decide (uuid = k)) as [->|Hne].
    + rewrite lookup_insert_eq. intros [= <-]. unfold rideInv, newRide. simpl.
      split; [compute_done|]. split; [reflexivity | discriminate].
    + rewrite lookup_insert_ne by assumption. apply Hinv.
  - destruct (acceptRide_rides clock ev s) as [->|(d & ride & _ & Hride & _ & ->)];
      [apply Hinv|].
    destruct (decide (acc_rideId ev = k)) as [<-|Hne].
    + rewrite lookup_alter_eq, Hride. intros [= <-]. unfold rideInv. simpl.
      split; [compute_done|]. split; [discriminate | by eexists].
    + rewrite lookup_alter_ne by assumption. apply Hinv.
  - destruct (updateRideStatus_rides clock ev s)
      as [->|(uid & ride & _ & Hv & Hride & _ & ->)]; [apply Hinv|].
    destruct (decide (upd_rideId ev = k)) as [<-|Hne].
    + rewrite lookup_alter_eq, Hride. intros [= <-].
      apply validStatuses_lifecycle in Hv as (Hlife & Hreq & Hmat).
      unfold rideInv. simpl. rewrite buildUpdates_status.
      split; [assumption|]. split; intros; contradiction.
    + rewrite lookup_alter_ne by assumption. apply Hinv.
Qed.

Lemma reachable_ridesInv s0 s : ridesInv s0 → reachableFrom s0 s → ridesInv s.
Proof.
  intros H0 Hreach. induction Hreach as [|c s _ IH]; [assumption|].
  by apply runCall_preserves.
Qed.

(** C3 (amended).  In every state the three handlers reach from a store
    without rides: a [requested] ride has a null [driverId], a [matched] ride
    has a non-null one, and a ride with a non-null [driverId] is [matched],
    [en-route], [arrived], [in-progress], [completed] or [cancelled]. *)
Theorem reachable_driver_field s0 s k r :
  rides s0 = ∅ →
  reachableFrom s0 s →
  rides s !! k = Some r →
  (Ride.status r = "requested" → Ride.driverId r = None) ∧
  (Ride.status r = "matched" → is_Some (Ride.driverId r)) ∧
  (is_Some (Ride.driverId r) →
     Ride.status r ∈ ["matched"; "en-route"; "arrived"; "in-progress";
                      "completed"; "cancelled"]).
Proof.
  intros Hempty Hreach Hr.
  assert (H0 : ridesInv s0).
  { intros k' r'. rewrite Hempty, lookup_empty. discriminate. }
  destruct (reachable_ridesInv s0 s H0 Hreach k r Hr) as (Hlife & Hreq & Hmat).
  split; [assumption|]. split; [assumption|].
  intros [d Hd]. unfold lifecycle in Hlife.
  apply elem_of_cons in Hlife as [Hst|Hlife]; [|assumption].
  rewrite (Hreq Hst) in Hd. discriminate.
Qed.

(** The state right after a first [requestRide]. *)
Lemma reachable_driver_field_witness :
  let s := (runCall (CallRequest demoClock "r1"
                       (mkRequestEvent (Some (unsignedToken "u1")) demoBody))
                    driversDb).2 in
  ∃ r, rides s !! "r1" = Some r ∧
       (Ride.status r = "requested" → Ride.driverId r = None) ∧
       (Ride.status r = "matched" → is_Some (Ride.driverId r)) ∧
       (is_Some (Ride.driverId r) →
          Ride.status r ∈ ["matched"; "en-route"; "arrived"; "in-progress";
                           "completed"; "cancelled"]).
Proof.
  intros s.
  pose (value := mkRideBody demoLoc demoLoc (Some "standard")).
  assert (Hs : rides s !! "r1" = Some (newRide demoClock "r1" "u1" value)).
  { unfold s. simpl.
    rewrite (requestRide_created demoClock "r1" _ driversDb "u1" value);
      [|reflexivity..].
    apply lookup_insert_eq. }
  exists (newRide demoClock "r1" "u1" value). split; [exact Hs|].
  apply (reachable_driver_field driversDb s "r1").
  - reflexivity.
  - apply (reach_step driversDb (CallRequest demoClock "r1" _)), reach_init.
  - exact Hs.
Defined.

(** C3, as stated, fails in both directions.  The rider of a freshly
    requested ride sends [en-route]: the ride is [en-route] with a null
    [driverId].  A matched ride is cancelled: the ride is [cancelled] and
    keeps its [driverId]. *)
Lemma driver_field_not_iff :
  let tk := Some (unsignedToken "u1") in
  let request := CallRequest demoClock "r1" (mkRequestEvent tk demoBody) in
  let enRoute := CallUpdate demoClock (mkStatusEvent tk "r1" "en-route" None) in
  let accept := CallAccept demoClock (mkAcceptEvent (Some (unsignedToken "d1")) "r1") in
  let cancel := CallUpdate demoClock (mkStatusEvent tk "r1" "cancelled" None) in
  let s1 := (runCall enRoute (runCall request driversDb).2).2 in
  let s2 := (runCall cancel (runCall accept (runCall request driversDb).2).2).2 in
  (reachableFrom driversDb s1 ∧
   Ride.status <$> rides s1 !! "r1" = Some "en-route" ∧
   Ride.driverId <$> rides s1 !! "r1" = Some None) ∧
  (reachableFrom driversDb s2 ∧
   Ride.status <$> rides s2 !! "r1" = Some "cancelled" ∧
   Ride.driverId <$> rides s2 !! "r1" = Some (Some "d1")).
Proof.
  split; (split; [repeat apply reach_step; apply reach_init|]);
    vm_compute; split; reflexivity.
Qed.

(** *** Who the caller is *)

(** C9.  The caller of a handler is the [sub] claim of the decoded payload.
    Algorithm, signature, issuer, audience and expiry of the token are never
    looked at: a token with any of them, the unsigned one included, whose
    payload carries a non-empty [sub = u] makes [u] the rider of the ride
    [requestRide] creates, the driver [acceptRide] assigns, and a party
    [updateRideStatus] obeys. *)
Theorem decoded_sub_is_caller (u alg signature : string) (cl : Utils.claims) :
  u ≠ "" →
  Utils.sub cl = Some u →
  let tk := Utils.Jwt alg cl signature in
  Utils.validateToken tk = Some cl ∧
  Utils.callerId (Some tk) = Some u ∧
  (∀ clock uuid body value s,
     schemas_ride_validate body = inr value →
     queryUserRides u "active" (rides s) = [] →
     let out := requestRide clock uuid (mkRequestEvent (Some tk) body) s in
     statusCode out.1 = 201 ∧ Ride.userId <$> rides out.2 !! uuid = Some u) ∧
  (∀ clock rid ride dr s,
     rides s !! rid = Some ride → Ride.status ride = "requested" →
     drivers s !! u = Some dr → Driver.status dr = "available" →
     let out := acceptRide clock (mkAcceptEvent (Some tk) rid) s in
     statusCode out.1 = 200 ∧
     Ride.driverId <$> rides out.2 !! rid = Some (Some u)) ∧
  (∀ clock rid st loc ride s,
     st ∈ validStatuses →
     rides s !! rid = Some ride → Ride.userId ride = u →
     let out := updateRideStatus clock (mkStatusEvent (Some tk) rid st loc) s in
     Ride.status <$> rides out.2 !! rid = Some st).
Proof.
  intros Hu Hsub tk.
  pose proof (UtilsFacts.callerId_jwt alg cl signature u Hsub Hu) as Hc.
  split; [by apply (UtilsFacts.validateToken_decoded alg cl signature u)|].
  split; [exact Hc|]. split; [|split].
  - intros clock uuid body value s Hv Hq. simpl.
    rewrite (requestRide_created clock uuid _ s u value) by done.
    simpl. rewrite lookup_insert_eq. split; reflexivity.
  - intros clock rid ride dr s Hr Hst Hd Hav. simpl.
    rewrite (acceptRide_ok clock _ s u ride dr) by done.
    simpl. rewrite lookup_alter_eq, Hr. split; reflexivity.
  - intros clock rid st loc ride s Hv Hr Hrider. simpl.
    rewrite (updateRideStatus_sets clock _ s u ride) by (try done; by left).
    simpl. rewrite lookup_alter_eq, Hr. simpl. by rewrite buildUpdates_status.
Qed.

Lemma decoded_sub_is_caller_witness :
  Utils.callerId (Some (unsignedToken "d1")) = Some "d1" ∧
  Ride.driverId <$>
    rides (acceptRide demoClock (mkAcceptEvent (Some (unsignedToken "d1")) "r1")
             raceDb).2 !! "r1"
  = Some (Some "d1").
Proof.
  destruct (decoded_sub_is_caller "d1" "none" ""
              (Utils.mkClaims (Some "d1") None None None None))
    as (_ & Hc & _ & Hacc & _); [discriminate | reflexivity |].
  split; [exact Hc|].
  apply (Hacc demoClock "r1" (demoRide "r1" "u1" None "requested")
              (demoDriver "d1" "available" "D1234567") raceDb);
    reflexivity.
Defined.

End RideFacts.

(** ** The driver service *)
Module DriverFacts.
Import DriverService Examples.

(** *** The haversine distance along a meridian *)

Lemma atan2_sin_cos h :
  (- (PI / 2) < h < PI / 2)%R → JSMath.atan2 (sin h) (cos h) = h.
Proof.
  intros [Hlo Hhi]. unfold JSMath.atan2.
  pose proof (cos_gt_0 h Hlo Hhi) as Hcos.
  destruct (Rlt_dec 0 (cos h)) as [_|Hn]; [|contradiction].
  change (sin h / cos h)%R with (tan h). apply atan_tan. split; assumption.
Qed.

(** Two points on the same meridian are as far apart as the arc between their
    latitudes. *)
Lemma calculateDistance_meridian (lat1 lat2 lon : Q) :
  (0 <= Q2R lat2 - Q2R lat1 < 180)%R →
  calculateDistance lat1 lon lat2 lon
  = (6371 * ((Q2R lat2 - Q2R lat1) * PI / 180))%R.
Proof.
  intros [Hlo Hhi]. unfold calculateDistance.
  set (dLat := ((Q2R lat2 - Q2R lat1) * PI / 180)%R).
  pose proof PI_RGT_0 as Hpi.
  assert (Hd0 : (0 <= dLat / 2)%R).
  { unfold dLat. apply Rmult_le_pos; [|lra].
    apply Rmult_le_pos; [|lra]. apply Rmult_le_pos; lra. }
  assert (Hd1 : (dLat / 2 < PI / 2)%R).
  { unfold dLat.
    assert ((Q2R lat2 - Q2R lat1) * PI < 180 * PI)%R
      by (apply Rmult_lt_compat_r; lra).
    lra. }
  replace ((Q2R lon - Q2R lon) * PI / 180 / 2)%R with 0%R by lra.
  rewrite sin_0.
  replace (sin (dLat / 2) * sin (dLat / 2) +
           cos (Q2R lat1 * PI / 180) * cos (Q2R lat2 * PI / 180) * 0 * 0)%R
    with (sin (dLat / 2) * sin (dLat / 2))%R by ring.
  rewrite sqrt_square by (apply sin_ge_0; lra).
  replace (1 - sin (dLat / 2) * sin (dLat / 2))%R
    with (cos (dLat / 2) * cos (dLat / 2))%R.
  2:{ pose proof (sin2_cos2 (dLat / 2)) as H. unfold Rsqr in H. lra. }
  rewrite sqrt_square by (left; apply cos_gt_0; lra).
  rewrite atan2_sin_cos by (split; lra).
  lra.
Qed.

Lemma calculateDistance_same (lat lon : Q) : calculateDistance lat lon lat lon = 0%R.
Proof. rewrite calculateDistance_meridian by lra. lra. Qed.

(** *** Sorting keeps the elements *)

Lemma insertByScore_perm x l : insertByScore x l ≡ₚ x :: l.
Proof.
  induction l as [|y l IH]; simpl; [reflexivity|].
  destruct (Rlt_dec (score y) (score x)); [reflexivity|].
  rewrite IH. apply Permutation_swap.
Qed.

Lemma sortByScore_perm l : sortByScore l ≡ₚ l.
Proof.
  unfold sortByScore.
  enough (H : ∀ acc, foldl (λ acc x, insertByScore x acc) acc l ≡ₚ acc ++ l)
    by apply (H []).
  induction l as [|x l IH]; intros acc; simpl.
  - by rewrite app_nil_r.
  - rewrite IH, insertByScore_perm. apply Permutation_middle.
Qed.

(** *** The two passes *)

(** The loop filters each query result by distance; all told it filters the
    bucket candidates. *)
Lemma nearbyDrivers_filter latitude longitude radius t :
  nearbyDrivers latitude longitude radius t
  = filter (withinRadius latitude longitude radius)
           (bucketCandidates latitude longitude radius t).
Proof.
  unfold nearbyDrivers, bucketCandidates.
  induction (generateNearbyLocationHashes latitude longitude radius) as [|h hs IH];
    [reflexivity|].
  rewrite !bind_cons, filter_app, IH. reflexivity.
Qed.

Lemma elem_of_bucketCandidates latitude longitude radius t d :
  d ∈ bucketCandidates latitude longitude radius t ↔
  ∃ hash k,
    hash ∈ generateNearbyLocationHashes latitude longitude radius ∧
    t !! k = Some d ∧
    Driver.locationHash d = Some hash ∧
    Driver.status d = "available" ∧ Driver.isActive d = true.
Proof.
  unfold bucketCandidates, queryLocationIndex. rewrite list_elem_of_bind. split.
  - intros (hash & Hd & Hh).
    apply list_elem_of_filter in Hd as [(Hhash & Hst & Hact) Hd].
    apply list_elem_of_fmap in Hd as ([k d'] & -> & Hd).
    apply elem_of_map_to_list in Hd. by exists hash, k.
  - intros (hash & k & Hh & Hk & Hhash & Hst & Hact).
    exists hash. split; [|assumption].
    apply list_elem_of_filter. split; [done|].
    apply list_elem_of_fmap. exists (k, d). split; [reflexivity|].
    by apply elem_of_map_to_list.
Qed.

Lemma elem_of_sortedDrivers latitude longitude radius t e :
  e ∈ sortedDrivers latitude longitude radius t →
  e.2 = distanceTo latitude longitude e.1 ∧
  withinRadius latitude longitude radius e.1 ∧
  e.1 ∈ bucketCandidates latitude longitude radius t.
Proof.
  unfold sortedDrivers. intros He.
  apply elem_of_take in He as (i & He & _).
  apply list_elem_of_lookup_2 in He.
  rewrite sortByScore_perm in He.
  apply list_elem_of_fmap in He as (d & -> & Hd).
  rewrite nearbyDrivers_filter in Hd.
  apply list_elem_of_filter in Hd as [Hin Hd]. done.
Qed.

(** C6.  Every entry of the list [getNearbyDrivers] returns is a driver that
    is [available], active, has a location, and whose haversine distance to
    the query point, which the entry carries, is at most the radius. *)
Theorem nearby_drivers_within_radius ev s latitude longitude l e :
  q_lat ev = Some latitude →
  q_lng ev = Some longitude →
  responseBody (getNearbyDrivers ev s) = Drivers l →
  e ∈ l →
  Driver.status e.1 = "available" ∧
  Driver.isActive e.1 = true ∧
  ∃ loc, Driver.location e.1 = Some loc ∧
         e.2 = calculateDistance latitude longitude (Loc.lat loc) (Loc.lng loc) ∧
         (e.2 <= Q2R (default 5%Q (q_radius ev)))%R.
Proof.
  intros Hlat Hlng Hbody He. unfold getNearbyDrivers in Hbody.
  rewrite Hlat, Hlng in Hbody. simpl in Hbody. injection Hbody as <-.
  apply elem_of_sortedDrivers in He as (Hdist & Hwithin & Hcand).
  apply elem_of_bucketCandidates in Hcand as (hash & k & _ & _ & _ & Hst & Hact).
  split; [assumption|]. split; [assumption|].
  unfold withinRadius in Hwithin. unfold distanceTo in Hdist.
  destruct (Driver.location e.1) as [loc|]; [|contradiction].
  exists loc. split; [reflexivity|]. split; [assumption|].
  rewrite Hdist. assumption.
Qed.

(** The driver that stands on the query point is returned, at distance 0. *)
Lemma nearDb_response :
  getNearbyDrivers nearbyQuery nearDb
  = createResponse 200 (Drivers [(nearDriver, calculateDistance 1 1 1 1)]).
Proof.
  unfold getNearbyDrivers, nearbyQuery, sortedDrivers. simpl.
  rewrite nearbyDrivers_filter.
  assert (Hc : bucketCandidates 1 1 5 (drivers nearDb) = [nearDriver])
    by (vm_compute; reflexivity).
  rewrite Hc, filter_cons_True.
  - reflexivity.
  - unfold withinRadius. simpl. rewrite calculateDistance_same.
    unfold Q2R. simpl. lra.
Qed.

Lemma nearby_drivers_within_radius_witness :
  Driver.status nearDriver = "available" ∧
  Driver.isActive nearDriver = true ∧
  ∃ loc, Driver.location nearDriver = Some loc ∧
         calculateDistance 1 1 1 1 = calculateDistance 1 1 (Loc.lat loc) (Loc.lng loc) ∧
         (calculateDistance 1 1 1 1 <= Q2R 5)%R.
Proof.
  apply (nearby_drivers_within_radius nearbyQuery nearDb 1 1
           [(nearDriver, calculateDistance 1 1 1 1)]
           (nearDriver, calculateDistance 1 1 1 1)).
  - reflexivity.
  - reflexivity.
  - rewrite nearDb_response. reflexivity.
  - apply list_elem_of_singleton. reflexivity.
Defined.

(** C5.  Driver [d1] is available, active, stored with the bucket key of its
    position, and 0.03 degrees of latitude from the query point (1, 1): about
    3.3 km, inside the radius of 5 km.  The ring computed for that radius is
    the query cell and its eight neighbours, which reaches some 2.2 km; the
    driver's cell is not in it, the bucket pass does not produce the driver,
    and the response is empty. *)
Theorem driver_in_range_not_a_candidate :
  drivers farDb !! "d1" = Some farDriver ∧
  Driver.status farDriver = "available" ∧
  Driver.isActive farDriver = true ∧
  Driver.location farDriver = Some farLoc ∧
  Driver.locationHash farDriver
  = Some (generateLocationHash (Loc.lat farLoc) (Loc.lng farLoc)) ∧
  (calculateDistance 1 1 (Loc.lat farLoc) (Loc.lng farLoc) <= Q2R 5)%R ∧
  generateNearbyLocationHashes 1 1 5
  = ["99_99"; "99_100"; "99_101"; "100_99"; "100_100"; "100_101";
     "101_99"; "101_100"; "101_101"] ∧
  generateLocationHash (Loc.lat farLoc) (Loc.lng farLoc) = "103_100" ∧
  (farDriver ∉ bucketCandidates 1 1 5 (drivers farDb)) ∧
  getNearbyDrivers nearbyQuery farDb = createResponse 200 (Drivers []).
Proof.
  assert (Hc : bucketCandidates 1 1 5 (drivers farDb) = [])
    by (vm_compute; reflexivity).
  repeat split; try (vm_compute; reflexivity).
  - unfold farLoc. simpl. rewrite calculateDistance_meridian.
    + unfold Q2R. simpl. pose proof PI_4. pose proof PI_RGT_0. lra.
    + unfold Q2R. simpl. lra.
  - rewrite Hc. apply not_elem_of_nil.
Qed.

(** *** What the responses show of a license number *)

Lemma nearby_entry_stored ev s l e :
  keyed (drivers s) →
  responseBody (getNearbyDrivers ev s) = Drivers l →
  e ∈ l →
  drivers s !! Driver.driverId e.1 = Some e.1.
Proof.
  intros Hk Hbody He. unfold getNearbyDrivers in Hbody.
  destruct (q_lat ev) as [latitude|]; [|discriminate].
  destruct (q_lng ev) as [longitude|]; [|discriminate].
  simpl in Hbody. injection Hbody as <-.
  apply elem_of_sortedDrivers in He as (_ & _ & Hcand).
  apply elem_of_bucketCandidates in Hcand as (hash & k & _ & Hlook & _).
  by rewrite (Hk k e.1 Hlook).
Qed.

Lemma keyed_setLicense t d license :
  keyed t → keyed (<[Driver.driverId d := setLicense license d]> t).
Proof. intros Hk. apply map_Forall_insert_2; [reflexivity | exact Hk]. Qed.

(** C10.  An entry of the [getNearbyDrivers] response is the stored driver
    item as it is, [licenseNumber] included: replace the license number of a
    returned driver by another one and the response is another response.
    [getDriverProfile] answers with the item whose [licenseNumber] is
    ["***"] followed by the last four characters. *)
Theorem nearby_response_carries_license ev s :
  keyed (drivers s) →
  (∀ l e,
     responseBody (getNearbyDrivers ev s) = Drivers l →
     e ∈ l →
     drivers s !! Driver.driverId e.1 = Some e.1 ∧
     ∀ license,
       license ≠ Driver.licenseNumber e.1 →
       getNearbyDrivers ev
         (with_drivers (insert (Driver.driverId e.1) (setLicense license e.1)) s)
       ≠ getNearbyDrivers ev s) ∧
  (∀ authorization u d,
     Utils.callerId authorization = Some u →
     drivers s !! u = Some d →
     getDriverProfile authorization s
     = createResponse 200 (DriverProfile (maskLicense d)) ∧
     Driver.licenseNumber (maskLicense d)
     = "***" +:+ lastFour (Driver.licenseNumber d)).
Proof.
  intros Hk. split.
  - intros l e Hbody He. split; [by apply (nearby_entry_stored ev s l)|].
    intros license Hne Heq.
    assert (Hstored' :
      drivers (with_drivers (insert (Driver.driverId e.1) (setLicense license e.1)) s)
        !! Driver.driverId e.1 = Some e.1).
    { apply (nearby_entry_stored ev _ l).
      - simpl. by apply keyed_setLicense.
      - by rewrite Heq.
      - assumption. }
    simpl in Hstored'. rewrite lookup_insert_eq in Hstored'.
    injection Hstored' as Hrec.
    apply Hne. apply (f_equal Driver.licenseNumber) in Hrec. exact Hrec.
  - intros authorization u d Hc Hd. unfold getDriverProfile.
    rewrite Hc, Hd. split; reflexivity.
Qed.

Lemma nearby_response_carries_license_witness :
  (drivers nearDb !! "d1" = Some nearDriver ∧
   getNearbyDrivers nearbyQuery
     (with_drivers (insert "d1" (setLicense "X0000000" nearDriver)) nearDb)
   ≠ getNearbyDrivers nearbyQuery nearDb) ∧
  getDriverProfile (Some (unsignedToken "d1")) nearDb
  = createResponse 200 (DriverProfile (setLicense "***4567" nearDriver)).
Proof.
  destruct (nearby_response_carries_license nearbyQuery nearDb) as [Hnear Hprofile].
  { unfold keyed. compute_done. }
  split.
  - destruct (Hnear [(nearDriver, calculateDistance 1 1 1 1)]
                    (nearDriver, calculateDistance 1 1 1 1)) as [Hstored Hdiff].
    + rewrite nearDb_response. reflexivity.
    + apply list_elem_of_singleton. reflexivity.
    + split; [exact Hstored|]. apply (Hdiff "X0000000"). discriminate.
  - destruct (Hprofile (Some (unsignedToken "d1")) "d1" nearDriver) as [-> _];
      reflexivity.
Defined.

End DriverFacts.

(** ** The websocket service *)
Module WebSocketFacts.
Import WebSocketService Examples.

(** *** Closing a connection *)

Lemma disconnect_run clock cid s :
  handle (disconnect clock cid) s =
    (createResponse 200 (Message "Disconnected successfully"),
     mkWs (upsert (Conn.setDisconnectedAt (clock 0%nat)) cid (connections s))
          (outbox s) 1).
Proof. reflexivity. Qed.

Lemma getUserConnections_spec u s cid c :
  (cid, c) ∈ (getUserConnections (Some u) s).1 ↔
  connections s !! cid = Some c ∧ Conn.userId c = Some u ∧ Conn.disconnectedAt c = None.
Proof.
  unfold getUserConnections. simpl. rewrite list_elem_of_filter, elem_of_map_to_list.
  simpl. tauto.
Qed.

(** A connection with a disconnect time is never selected. *)
Lemma getUserConnections_skips_closed o s cid c :
  connections s !! cid = Some c →
  Conn.disconnectedAt c ≠ None →
  cid ∉ (getUserConnections o s).1.*1.
Proof.
  intros Hc Hclosed Hin. destruct o as [u|]; [|by apply elem_of_nil in Hin].
  apply list_elem_of_fmap in Hin as ([cid' c'] & -> & Hin).
  apply getUserConnections_spec in Hin as (Hc' & _ & Hlive).
  simpl in Hc. rewrite Hc in Hc'. injection Hc' as <-. contradiction.
Qed.

(** C8, as stated, fails: the second [disconnect] stamps the item again.  The
    connection closed at 00:05 reads 00:09 after the second call. *)
Lemma second_disconnect_restamps :
  let out1 := handle (disconnect demoClock "c1") liveWs in
  let out2 := handle (disconnect laterClock "c1") out1.2 in
  Conn.disconnectedAt <$> connections out1.2 !! "c1"
  = Some (Some "2024-01-01T00:05:00.000Z") ∧
  Conn.disconnectedAt <$> connections out2.2 !! "c1"
  = Some (Some "2024-01-01T00:09:00.000Z") ∧
  connections out2.2 !! "c1" ≠ connections out1.2 !! "c1".
Proof. vm_compute. repeat split; discriminate || reflexivity. Qed.

(** C8 (amended).  A second [disconnect] of the same connection id answers
    200 like the first.  It rewrites [disconnectedAt] with the time of the
    second call and leaves every other attribute of the item, every other
    item and the pushes as they were; when both calls read the same time the
    table is unchanged.  After the first call and after the second the
    connection is not among the live connections of any user. *)
Theorem disconnect_twice clock1 clock2 cid s :
  let out1 := handle (disconnect clock1 cid) s in
  let out2 := handle (disconnect clock2 cid) out1.2 in
  out1.1 = createResponse 200 (Message "Disconnected successfully") ∧
  out2.1 = out1.1 ∧
  (∃ c1, connections out1.2 !! cid = Some c1 ∧
         Conn.disconnectedAt c1 = Some (clock1 0%nat) ∧
         connections out2.2 !! cid
         = Some (Conn.setDisconnectedAt (clock2 0%nat) c1)) ∧
  (∀ k, k ≠ cid → connections out2.2 !! k = connections out1.2 !! k) ∧
  outbox out2.2 = outbox out1.2 ∧
  (clock2 0%nat = clock1 0%nat → connections out2.2 = connections out1.2) ∧
  (∀ o, (cid ∉ (getUserConnections o out1.2).1.*1) ∧
        (cid ∉ (getUserConnections o out2.2).1.*1)).
Proof.
  intros out1 out2. unfold out2, out1. rewrite !disconnect_run.
  cbn [fst snd connections outbox].
  set (c0 := default Conn.blank (connections s !! cid)).
  assert (H1 : upsert (Conn.setDisconnectedAt (clock1 0%nat)) cid (connections s) !! cid
               = Some (Conn.setDisconnectedAt (clock1 0%nat) c0))
    by apply lookup_insert_eq.
  assert (H2 : upsert (Conn.setDisconnectedAt (clock2 0%nat)) cid
                 (upsert (Conn.setDisconnectedAt (clock1 0%nat)) cid (connections s))
               = <[cid := Conn.setDisconnectedAt (clock2 0%nat) c0]> (connections s)).
  { unfold upsert at 1. rewrite H1. simpl. unfold upsert.
    rewrite insert_insert_eq. reflexivity. }
  split; [reflexivity|]. split; [reflexivity|]. split.
  { eexists. split; [exact H1|]. split; [reflexivity|].
    rewrite H2, lookup_insert_eq. reflexivity. }
  split.
  { intros k Hk. rewrite H2. unfold upsert. by rewrite !lookup_insert_ne. }
  split; [reflexivity|]. split.
  { intros Heq. rewrite H2, Heq. reflexivity. }
  intros o. split.
  - eapply getUserConnections_skips_closed; [exact H1 | discriminate].
  - eapply getUserConnections_skips_closed;
      [cbn [connections]; rewrite H2; apply lookup_insert_eq | discriminate].
Qed.

Lemma disconnect_twice_witness :
  let out1 := handle (disconnect demoClock "c1") liveWs in
  let out2 := handle (disconnect demoClock "c1") out1.2 in
  connections out2.2 = connections out1.2.
Proof.
  intros out1 out2.
  destruct (disconnect_twice demoClock demoClock "c1" liveWs)
    as (_ & _ & _ & _ & _ & Hsame & _).
  apply Hsame. reflexivity.
Defined.

(** *** Fanout *)

Section Fanout.
Variable clock : nat → timestamp.
Variable transport : list attempt → string → outbound → pushResult.

Lemma marked_refl s s' :
  connections s' = connections s → outbox s' = outbox s → marked s s' [].
Proof.
  intros Hc Ho. split; [by rewrite Ho, app_nil_r|]. intros c. left. by rewrite Hc.
Qed.

Lemma marked_trans s0 s1 s2 n1 n2 :
  marked s0 s1 n1 → marked s1 s2 n2 → marked s0 s2 (n1 ++ n2).
Proof.
  intros [Ho1 Hc1] [Ho2 Hc2]. split; [by rewrite Ho2, Ho1, app_assoc|].
  intros c. unfold recipients. rewrite fmap_app.
  destruct (Hc2 c) as [Hsame2|(Hin2 & t2 & Ht2)];
    destruct (Hc1 c) as [Hsame1|(Hin1 & t1 & Ht1)].
  - left. congruence.
  - right. split; [apply elem_of_app; by left|]. exists t1. congruence.
  - right. split; [apply elem_of_app; by right|]. exists t2. congruence.
  - right. split; [apply elem_of_app; by left|]. exists t2.
    rewrite Ht2, Ht1. reflexivity.
Qed.

Lemma send_marked cid msg s :
  ∃ r, marked s (sendMessageToConnection clock transport cid msg s).2
         [mkAttempt cid msg r].
Proof.
  exists (transport (outbox s) cid msg). unfold sendMessageToConnection.
  destruct (transport (outbox s) cid msg); simpl.
  - split; [reflexivity|]. intros c. by left.
  - split; [reflexivity|]. intros c. unfold upsert. simpl.
    destruct (decide (cid = c)) as [<-|Hne].
    + right. split; [apply list_elem_of_singleton; reflexivity|].
      eexists. apply lookup_insert_eq.
    + left. by apply lookup_insert_ne.
  - split; [reflexivity|]. intros c. by left.
Qed.

Lemma sendAll_marked mk conns s :
  ∃ new, marked s (sendAll clock transport mk conns s).2 new ∧
         recipients new = conns.*1 ∧
         Forall (λ a, ∃ t, payload a = mk t) new.
Proof.
  revert s. induction conns as [|[cid c] conns IH]; intros s.
  - exists []. split; [by apply marked_refl|]. split; [reflexivity | constructor].
  - unfold sendAll. simpl. unfold bind at 1. simpl. unfold bind at 1. simpl.
    set (s0 := mkWs (connections s) (outbox s) (S (reads s))).
    destruct (send_marked cid (mk (clock (reads s))) s0) as (r & Hm).
    destruct (sendMessageToConnection clock transport cid (mk (clock (reads s))) s0)
      as [[] s1] eqn:Hs1.
    simpl in Hm.
    destruct (IH s1) as (new & Hm' & Hrec & Hall).
    exists (mkAttempt cid (mk (clock (reads s))) r :: new). split.
    + apply (marked_trans s s1 _ [_] new); [|exact Hm'].
      destruct Hm as [Ho Hc]. split; [exact Ho | exact Hc].
    + split; [simpl; by rewrite Hrec|].
      constructor; [by eexists | exact Hall].
Qed.


Lemma live_owned_iff c u s :
  live c s ∧ ownedBy c u s ↔
  ∃ conn, connections s !! c = Some conn ∧
          Conn.userId conn = Some u ∧ Conn.disconnectedAt conn = None.
Proof.
  unfold live, ownedBy. split.
  - intros [(c1 & H1 & Hl) (c2 & H2 & Ho)]. exists c1.
    rewrite H1 in H2. injection H2 as <-. done.
  - intros (conn & H & Ho & Hl). split; by exists conn.
Qed.

Lemma elem_of_connection_keys u s c :
  c ∈ (getUserConnections (Some u) s).1.*1 ↔ live c s ∧ ownedBy c u s.
Proof.
  rewrite live_owned_iff, list_elem_of_fmap. split.
  - intros ([c' conn] & -> & Hin). exists conn.
    by apply getUserConnections_spec in Hin.
  - intros (conn & H). exists (c, conn). split; [reflexivity|].
    by apply getUserConnections_spec.
Qed.

(** A connection that is live after some pushes was live before them, with
    the same owner. *)
Lemma marked_live_back s0 s new c u :
  marked s0 s new → live c s ∧ ownedBy c u s → live c s0 ∧ ownedBy c u s0.
Proof.
  intros [_ Hc] H. apply live_owned_iff in H as (conn & Hlook & Ho & Hl).
  apply live_owned_iff.
  destruct (Hc c) as [Hsame|(_ & t & Ht)].
  - exists conn. by rewrite <- Hsame.
  - rewrite Ht in Hlook. injection Hlook as <-. discriminate Hl.
Qed.

(** A connection that was live before some pushes is live after them, or
    was pushed to. *)
Lemma marked_live_forth s0 s new c u :
  marked s0 s new → live c s0 ∧ ownedBy c u s0 →
  (live c s ∧ ownedBy c u s) ∨ c ∈ recipients new.
Proof.
  intros [_ Hc] H. apply live_owned_iff in H as (conn & Hlook & Ho & Hl).
  destruct (Hc c) as [Hsame|(Hin & _)]; [|by right].
  left. apply live_owned_iff. exists conn. by rewrite Hsame.
Qed.

Lemma fanout_marked mk targets s :
  ∃ new, marked s (fanout clock transport targets mk s).2 new ∧
         Forall (λ a, ∃ t, payload a = mk t) new ∧
         ∀ c, c ∈ recipients new ↔
              ∃ u, Some u ∈ targets ∧ live c s ∧ ownedBy c u s.
Proof.
  revert s. induction targets as [|o targets IH]; intros s.
  - exists []. split; [by apply marked_refl|]. split; [constructor|].
    intros c. split.
    + intros H. by apply elem_of_nil in H.
    + intros (u & H & _). by apply elem_of_nil in H.
  - unfold fanout. simpl. unfold bind at 1. unfold bind at 1.
    set (conns := (getUserConnections o s).1).
    assert (Hq : getUserConnections o s = (conns, s)) by (by destruct o).
    rewrite Hq.
    destruct (sendAll_marked mk conns s) as (n1 & Hm1 & Hrec1 & Hall1).
    destruct (sendAll clock transport mk conns s) as [[] s1] eqn:Hs1.
    simpl in Hm1.
    destruct (IH s1) as (n2 & Hm2 & Hall2 & Hrec2).
    exists (n1 ++ n2). split; [by apply (marked_trans s s1)|].
    split; [by apply Forall_app|].
    intros c. unfold recipients. rewrite fmap_app, elem_of_app.
    fold (recipients n1). fold (recipients n2). rewrite Hrec1, Hrec2. split.
    + intros [Hin|(u & Hu & Hlive)].
      * destruct o as [u|]; [|by apply elem_of_nil in Hin].
        exists u. split; [left|]. by apply elem_of_connection_keys.
      * exists u. split; [by right|]. by apply (marked_live_back s s1 n1).
    + intros (u & Hu & Hlive). apply elem_of_cons in Hu as [<-|Hu].
      * left. by apply elem_of_connection_keys.
      * destruct (marked_live_forth s s1 n1 c u Hm1 Hlive) as [Hl|Hin].
        -- right. by exists u.
        -- left. by rewrite <- Hrec1.
Qed.


Variable rides : gmap string Ride.t.

Lemma elem_of_locationTargets ride o v :
  Some v ∈ locationTargets ride o ↔
  (v = Ride.userId ride ∨ Ride.driverId ride = Some v) ∧ o ≠ Some v.
Proof.
  unfold locationTargets. rewrite list_elem_of_In, List.filter_In, <- list_elem_of_In.
  rewrite elem_of_cons, list_elem_of_singleton, negb_true_iff.
  assert (Hs : sameUser (Some v) o = false ↔ o ≠ Some v).
  { destruct o as [u|]; simpl; [|done].
    destruct (String.eqb_spec v u); split; congruence. }
  rewrite Hs. split.
  - intros [[[= ->]|H] Hne]; split; auto.
  - intros [[->|H] Hne]; split; auto.
Qed.

Lemma elem_of_statusTargets ride v :
  Some v ∈ statusTargets ride ↔ v = Ride.userId ride ∨ Ride.driverId ride = Some v.
Proof.
  unfold statusTargets. rewrite elem_of_cons, list_elem_of_singleton.
  split; intros [H|H]; auto; [left; congruence | left; congruence].
Qed.

Lemma ownedBy_unique c u v s : ownedBy c u s → ownedBy c v s → u = v.
Proof. intros (c1 & H1 & Hu) (c2 & H2 & Hv). congruence. Qed.

(** C7 (amended).  For a [location_update] with a ride id, or a
    [ride_status_update], whose ride exists, the handler pushes that event to
    every connection that is live and owned by a target, and to no other
    connection.  For [location_update] the targets are the rider
    and the driver of the ride except the user named in the payload of the
    message, so no connection of that user receives the event.  For
    [ride_status_update] the targets are the rider and the driver: a sender
    who is one of them receives the event on each of their own live
    connections. *)
Theorem fanout_recipients cid rid ride s :
  rides !! rid = Some ride →
  rid ≠ "" →
  (∀ userId location,
     ∃ new,
       outbox (handleLocationUpdate clock transport rides cid userId location
                 (Some rid) s).2 = outbox s ++ new ∧
       Forall (λ a, ∃ t, payload a = LocationUpdate rid userId location t) new ∧
       (∀ c, c ∈ recipients new ↔
             ∃ u, ((u = Ride.userId ride ∨ Ride.driverId ride = Some u) ∧
                   userId ≠ Some u) ∧ live c s ∧ ownedBy c u s) ∧
       (∀ c u, userId = Some u → ownedBy c u s → c ∉ recipients new)) ∧
  (∀ status text,
     ∃ new,
       outbox (handleRideStatusUpdate clock transport rides cid (Some rid)
                 status text s).2 = outbox s ++ new ∧
       Forall (λ a, ∃ t, payload a = RideStatusUpdate rid status text t) new ∧
       (∀ c, c ∈ recipients new ↔
             ∃ u, (u = Ride.userId ride ∨ Ride.driverId ride = Some u) ∧
                  live c s ∧ ownedBy c u s)).
Proof.
  intros Hride Hrid. split.
  - intros userId location. unfold handleLocationUpdate.
    simpl. rewrite (UtilsFacts.truthyS_nonempty rid Hrid), Hride.
    destruct (fanout_marked (λ t, LocationUpdate rid userId location t)
                (locationTargets ride userId) s) as (new & [Ho _] & Hall & Hrec).
    exists new. split; [exact Ho|]. split; [exact Hall|].
    assert (Hrec' : ∀ c, c ∈ recipients new ↔
              ∃ u, ((u = Ride.userId ride ∨ Ride.driverId ride = Some u) ∧
                    userId ≠ Some u) ∧ live c s ∧ ownedBy c u s).
    { intros c. rewrite Hrec. split; intros (u & Hu & H); exists u;
        (split; [by apply elem_of_locationTargets in Hu || by apply elem_of_locationTargets | exact H]). }
    split; [exact Hrec'|].
    intros c u -> Hown Hin. apply Hrec' in Hin as (v & [_ Hne] & _ & Hown').
    apply Hne. f_equal. by apply (ownedBy_unique c u v s).
  - intros status text. unfold handleRideStatusUpdate. rewrite Hride.
    destruct (fanout_marked (λ t, RideStatusUpdate rid status text t)
                (statusTargets ride) s) as (new & [Ho _] & Hall & Hrec).
    exists new. split; [exact Ho|]. split; [exact Hall|].
    intros c. rewrite Hrec. split; intros (u & Hu & H); exists u;
      (split; [by apply elem_of_statusTargets in Hu || by apply elem_of_statusTargets | exact H]).
Qed.

End Fanout.

Lemma fanout_recipients_witness :
  ∃ new,
    outbox (handleLocationUpdate demoClock reliable matchedRides "c1"
              (Some "u1") None (Some "r1") liveWs).2 = outbox liveWs ++ new ∧
    (∀ c u, Some "u1" = Some u → ownedBy c u liveWs → c ∉ recipients new).
Proof.
  destruct (fanout_recipients demoClock reliable matchedRides "c1" "r1"
              (demoRide "r1" "u1" (Some "d1") "matched") liveWs) as [Hloc _];
    [reflexivity | discriminate |].
  destruct (Hloc (Some "u1") None) as (new & Ho & _ & _ & Hecho).
  exists new. split; assumption.
Defined.

(** C7, as stated, fails for [ride_status_update]: rider [u1] sends the
    update on connection [c1] and the event is pushed to [c1] itself, as
    well as to the driver's [c2]. *)
Lemma status_update_echoes_to_sender :
  let out := handle (message demoClock reliable matchedRides "c1"
                       (InRideStatusUpdate (Some "r1") (Some "arrived") None))
                    liveWs in
  Conn.userId <$> connections liveWs !! "c1" = Some (Some "u1") ∧
  Ride.userId <$> matchedRides !! "r1" = Some "u1" ∧
  outbox out.2 =
    [mkAttempt "c1"
       (RideStatusUpdate "r1" (Some "arrived") None "2024-01-01T00:05:00.000Z")
       Delivered;
     mkAttempt "c2"
       (RideStatusUpdate "r1" (Some "arrived") None "2024-01-01T00:05:00.000Z")
       Delivered].
Proof. vm_compute. repeat split; reflexivity. Qed.

(** A [location_update] is kept from the user its payload names, who need
    not be the sender: [u1] sends on [c1] a payload naming [d1], and receives
    it on [c1]. *)
Lemma location_update_trusts_payload :
  let out := handle (message demoClock reliable matchedRides "c1"
                       (InLocationUpdate (Some "d1") None (Some "r1")))
                    liveWs in
  recipients (outbox out.2) = ["c1"].
Proof. vm_compute. reflexivity. Qed.

End WebSocketFacts.

(** * Further properties of the handlers *)

(** ** Ride service: who can accept, who can update, what is stored *)

Module RideMore.
Import RideService Examples MoreExamples RideFacts.

Lemma acceptRide_success_inv clock ev s :
  statusCode (acceptRide clock ev s).1 = 200 →
  ∃ d ride dr,
    Utils.callerId (acc_authorization ev) = Some d ∧
    rides s !! acc_rideId ev = Some ride ∧ Ride.status ride = "requested" ∧
    drivers s !! d = Some dr ∧ Driver.status dr = "available".
Proof.
  unfold acceptRide.
  destruct (Utils.callerId _) as [d|]; [|discriminate].
  destruct (rides s !! _) as [ride|]; [|discriminate].
  destruct (String.eqb_spec (Ride.status ride) "requested"); [|discriminate]. simpl.
  destruct (drivers s !! d) as [dr|] eqn:Hd; [|discriminate].
  destruct (String.eqb_spec (Driver.status dr) "available"); [|discriminate].
  intros _. by exists d, ride, dr.
Qed.

(** X1. [acceptRide] answers 200 exactly when the token names a caller, the
    ride is stored with status [requested], and the caller has a driver item
    with status [available].  Any other answer is 404, 409 or 500 and leaves
    the store as it was. *)
Theorem acceptRide_success_iff clock ev s :
  (statusCode (acceptRide clock ev s).1 = 200 ↔
   ∃ d ride dr,
     Utils.callerId (acc_authorization ev) = Some d ∧
     rides s !! acc_rideId ev = Some ride ∧ Ride.status ride = "requested" ∧
     drivers s !! d = Some dr ∧ Driver.status dr = "available") ∧
  (statusCode (acceptRide clock ev s).1 ≠ 200 → (acceptRide clock ev s).2 = s) ∧
  statusCode (acceptRide clock ev s).1 ∈ [200; 404; 409; 500].
Proof.
  unfold acceptRide.
  destruct (Utils.callerId (acc_authorization ev)) as [d|] eqn:Hc.
  2:{ simpl. split; [|split; [done|compute_done]].
      split; [discriminate|]. intros (d & ? & ? & [=] & _). }
  destruct (rides s !! acc_rideId ev) as [ride|] eqn:Hr.
  2:{ simpl. split; [|split; [done|compute_done]].
      split; [discriminate|]. intros (? & ? & ? & _ & [=] & _). }
  destruct (String.eqb_spec (Ride.status ride) "requested") as [Hst|Hst]; simpl.
  2:{ split; [|split; [done|compute_done]].
      split; [discriminate|]. intros (? & ? & ? & _ & [= <-] & ? & _). contradiction. }
  destruct (drivers s !! d) as [dr|] eqn:Hd.
  2:{ simpl. split; [|split; [done|compute_done]].
      split; [discriminate|]. intros (? & ? & ? & [= <-] & _ & _ & Hd' & _).
      rewrite Hd in Hd'. discriminate. }
  destruct (String.eqb_spec (Driver.status dr) "available") as [Hav|Hav]; simpl.
  - split; [|split; [done|compute_done]].
    split; [|done]. intros _. by exists d, ride, dr.
  - split; [|split; [done|compute_done]].
    split; [discriminate|]. intros (? & ? & ? & [= <-] & _ & _ & Hd' & ?).
    rewrite Hd in Hd'. injection Hd' as <-. contradiction.
Qed.

(** X2. A driver whose acceptance succeeded is stored as [busy], and a
    further [acceptRide] by the same driver, for whatever ride, is refused
    with 404 or 409 and changes nothing. *)
Theorem busy_driver_cannot_accept clock1 clock2 ev1 ev2 s d :
  Utils.callerId (acc_authorization ev1) = Some d →
  Utils.callerId (acc_authorization ev2) = Some d →
  statusCode (acceptRide clock1 ev1 s).1 = 200 →
  let s1 := (acceptRide clock1 ev1 s).2 in
  Driver.status <$> drivers s1 !! d = Some "busy" ∧
  statusCode (acceptRide clock2 ev2 s1).1 ∈ [404; 409] ∧
  (acceptRide clock2 ev2 s1).2 = s1.
Proof.
  intros Hc1 Hc2 Hok s1.
  apply acceptRide_success_inv in Hok as (d' & ride & dr & Hc & Hr & Hst & Hd & Hav).
  rewrite Hc1 in Hc. injection Hc as <-.
  assert (Hd1 : drivers s1 !! d = Some (setDriverStatus "busy" (clock1 1%nat) dr)).
  { unfold s1. rewrite (acceptRide_ok clock1 ev1 s d ride dr) by assumption.
    simpl. rewrite lookup_alter_eq, Hd. reflexivity. }
  split; [by rewrite Hd1|].
  unfold acceptRide. rewrite Hc2.
  destruct (rides s1 !! acc_rideId ev2) as [r2|]; [|split; [compute_done|reflexivity]].
  destruct (negb (String.eqb (Ride.status r2) "requested"));
    [split; [compute_done|reflexivity]|].
  rewrite Hd1. simpl. split; [compute_done|reflexivity].
Qed.

Lemma busy_driver_cannot_accept_witness :
  let s1 := (acceptRide demoClock acceptByD1 raceDb).2 in
  Driver.status <$> drivers s1 !! "d1" = Some "busy" ∧
  statusCode (acceptRide laterClock (mkAcceptEvent (Some (unsignedToken "d1")) "r9") s1).1
    ∈ [404; 409] ∧
  (acceptRide laterClock (mkAcceptEvent (Some (unsignedToken "d1")) "r9") s1).2 = s1.
Proof.
  apply (busy_driver_cannot_accept demoClock laterClock acceptByD1
           (mkAcceptEvent (Some (unsignedToken "d1")) "r9") raceDb "d1");
    reflexivity.
Defined.

(** What a [completed] update writes when the assigned driver has an item. *)
Lemma updateRideStatus_completed clock ev s uid ride d dr :
  Utils.callerId (upd_authorization ev) = Some uid →
  upd_status ev = "completed" →
  rides s !! upd_rideId ev = Some ride →
  Ride.userId ride = uid ∨ Ride.driverId ride = Some uid →
  Ride.driverId ride = Some d →
  d ≠ "" →
  drivers s !! d = Some dr →
  updateRideStatus clock ev s =
    (createResponse 200 (Message "Ride status updated successfully"),
     mkDb (alter (applyUpdates (buildUpdates clock "completed" ride))
                 (upd_rideId ev) (rides s))
          (alter (completeDriver (clock 2%nat)) d (drivers s))
          (events s ++ [RideStatusChanged (upd_rideId ev) "completed"
                          (Ride.userId ride) (Some d) (upd_location ev)])).
Proof.
  intros Hc Hst Hr Hauth Hd Hne Hdr. unfold updateRideStatus.
  rewrite Hc, Hst, Hr. simpl.
  apply authorized_iff in Hauth. rewrite Hauth. simpl.
  rewrite Hd. simpl. rewrite (UtilsFacts.truthyS_nonempty d Hne), Hdr. reflexivity.
Qed.

(** X3. When the rider or the driver of a ride reports it [completed] and
    the assigned driver has an item, the driver goes back to [available]
    with one more ride counted, the ride is stamped [completed] with the
    second clock reading, an absent or zero [actualFare] is filled from the
    estimate, and one status event is published. *)
Theorem completed_ride_frees_driver clock ev s uid ride d dr :
  Utils.callerId (upd_authorization ev) = Some uid →
  upd_status ev = "completed" →
  rides s !! upd_rideId ev = Some ride →
  Ride.userId ride = uid ∨ Ride.driverId ride = Some uid →
  Ride.driverId ride = Some d →
  d ≠ "" →
  drivers s !! d = Some dr →
  let out := updateRideStatus clock ev s in
  out.1 = createResponse 200 (Message "Ride status updated successfully") ∧
  (∃ dr', drivers out.2 !! d = Some dr' ∧
          Driver.status dr' = "available" ∧
          Driver.totalRides dr' = (Driver.totalRides dr + 1)%Z) ∧
  (∃ r, rides out.2 !! upd_rideId ev = Some r ∧
        Ride.status r = "completed" ∧
        Ride.completedAt r = Some (clock 1%nat) ∧
        Ride.actualFare r =
          (if falsyFare (Ride.actualFare ride)
           then Some (Ride.estimatedFare ride) else Ride.actualFare ride)) ∧
  events out.2 =
    events s ++ [RideStatusChanged (upd_rideId ev) "completed" (Ride.userId ride)
                   (Some d) (upd_location ev)].
Proof.
  intros Hc Hst Hr Hauth Hd Hne Hdr out. unfold out.
  rewrite (updateRideStatus_completed clock ev s uid ride d dr) by assumption.
  simpl. split; [reflexivity|]. split.
  { eexists. rewrite lookup_alter_eq, Hdr. simpl. split; [reflexivity|]. split; reflexivity. }
  split; [|reflexivity].
  eexists. rewrite lookup_alter_eq, Hr. simpl. split; [reflexivity|].
  unfold buildUpdates. simpl.
  destruct (falsyFare (Ride.actualFare ride)); repeat split; reflexivity.
Qed.

Lemma completed_ride_frees_driver_witness :
  ∃ dr', drivers (updateRideStatus demoClock completeByRider matchedDb).2 !! "d1"
         = Some dr' ∧
         Driver.status dr' = "available" ∧ Driver.totalRides dr' = 1%Z.
Proof.
  destruct (completed_ride_frees_driver demoClock completeByRider matchedDb "u1"
              (demoRide "r1" "u1" (Some "d1") "matched") "d1"
              (demoDriver "d1" "busy" "D1234567")) as (_ & Hdr & _).
  - reflexivity.
  - reflexivity.
  - reflexivity.
  - left. reflexivity.
  - reflexivity.
  - discriminate.
  - reflexivity.
  - exact Hdr.
Defined.

(** X4. A caller who is neither the rider nor the assigned driver of a
    stored ride cannot update it: the answer is 403 when the status is one of
    the five accepted ones and 400 otherwise, and the store is unchanged. *)
Theorem stranger_cannot_update clock ev s uid ride :
  Utils.callerId (upd_authorization ev) = Some uid →
  rides s !! upd_rideId ev = Some ride →
  Ride.userId ride ≠ uid →
  Ride.driverId ride ≠ Some uid →
  statusCode (updateRideStatus clock ev s).1 ∈ [400; 403] ∧
  (upd_status ev ∈ validStatuses →
     (updateRideStatus clock ev s).1
     = createResponse 403 (Error "Unauthorized to update this ride")) ∧
  (updateRideStatus clock ev s).2 = s.
Proof.
  intros Hc Hr Hu Hd. unfold updateRideStatus. rewrite Hc.
  destruct (bool_decide_reflect (upd_status ev ∈ validStatuses)) as [Hv|Hv]; simpl.
  - rewrite Hr.
    assert (Hauth : negb (String.eqb (Ride.userId ride) uid) &&
                    negb (bool_decide (Ride.driverId ride = Some uid)) = true).
    { destruct (negb _ && negb _) eqn:E; [reflexivity|].
      apply authorized_iff in E as [E|E]; contradiction. }
    rewrite Hauth. split; [compute_done|]. split; reflexivity.
  - split; [compute_done|]. split; [intros; contradiction | reflexivity].
Qed.

Lemma stranger_cannot_update_witness :
  (updateRideStatus demoClock
     (mkStatusEvent (Some (unsignedToken "u2")) "r1" "cancelled" None) matchedDb).1
  = createResponse 403 (Error "Unauthorized to update this ride") ∧
  (updateRideStatus demoClock
     (mkStatusEvent (Some (unsignedToken "u2")) "r1" "cancelled" None) matchedDb).2
  = matchedDb.
Proof.
  destruct (stranger_cannot_update demoClock
              (mkStatusEvent (Some (unsignedToken "u2")) "r1" "cancelled" None)
              matchedDb "u2" (demoRide "r1" "u1" (Some "d1") "matched"))
    as (_ & H403 & Hsame).
  - reflexivity.
  - reflexivity.
  - discriminate.
  - discriminate.
  - split; [apply H403; compute_done | exact Hsame].
Defined.

(** X5. [updateRideStatus] does not look at the status a ride already has:
    a second [completed] update of the same ride is answered 200 again,
    counts the ride a second time for the driver and replaces the completion
    time. *)
Theorem completing_again_counts_again clock1 clock2 ev s uid ride d dr :
  Utils.callerId (upd_authorization ev) = Some uid →
  upd_status ev = "completed" →
  rides s !! upd_rideId ev = Some ride →
  Ride.userId ride = uid ∨ Ride.driverId ride = Some uid →
  Ride.driverId ride = Some d →
  d ≠ "" →
  drivers s !! d = Some dr →
  let s1 := (updateRideStatus clock1 ev s).2 in
  let out := updateRideStatus clock2 ev s1 in
  Ride.status <$> rides s1 !! upd_rideId ev = Some "completed" ∧
  statusCode out.1 = 200 ∧
  Driver.totalRides <$> drivers out.2 !! d = Some (Driver.totalRides dr + 2)%Z ∧
  Ride.completedAt <$> rides out.2 !! upd_rideId ev = Some (Some (clock2 1%nat)).
Proof.
  intros Hc Hst Hr Hauth Hd Hne Hdr s1 out. unfold out, s1.
  rewrite (updateRideStatus_completed clock1 ev s uid ride d dr) by assumption.
  simpl.
  set (ride1 := applyUpdates (buildUpdates clock1 "completed" ride) ride).
  set (s1' := mkDb _ _ _).
  assert (Hr1 : rides s1' !! upd_rideId ev = Some ride1)
    by (unfold s1'; simpl; rewrite lookup_alter_eq, Hr; reflexivity).
  assert (Hd1 : drivers s1' !! d = Some (completeDriver (clock1 2%nat) dr))
    by (unfold s1'; simpl; rewrite lookup_alter_eq, Hdr; reflexivity).
  rewrite (updateRideStatus_completed clock2 ev s1' uid ride1 d
             (completeDriver (clock1 2%nat) dr)); try assumption.
  - split; [change (alter _ _ (rides s)) with (rides s1'); by rewrite Hr1|].
    split; [reflexivity|].
    cbn [snd rides drivers]. fold s1'.
    change (alter (applyUpdates (buildUpdates clock1 "completed" ride))
                  (upd_rideId ev) (rides s)) with (rides s1').
    change (alter (completeDriver (clock1 2%nat)) d (drivers s)) with (drivers s1').
    rewrite !lookup_alter_eq, Hr1, Hd1. simpl.
    split; [f_equal; lia | reflexivity].
Qed.

Lemma completing_again_counts_again_witness :
  let s1 := (updateRideStatus demoClock completeByRider matchedDb).2 in
  Driver.totalRides <$> drivers (updateRideStatus laterClock completeByRider s1).2 !! "d1"
  = Some 2%Z.
Proof.
  destruct (completing_again_counts_again demoClock laterClock completeByRider matchedDb
              "u1" (demoRide "r1" "u1" (Some "d1") "matched") "d1"
              (demoDriver "d1" "busy" "D1234567")) as (_ & _ & Hcount & _).
  - reflexivity.
  - reflexivity.
  - reflexivity.
  - left. reflexivity.
  - reflexivity.
  - discriminate.
  - reflexivity.
  - exact Hcount.
Defined.

(** X6. None of the three ride handlers deletes anything: every ride id
    stays stored, the set of driver ids is unchanged, and the event log only
    grows, by at most one event per call. *)
Theorem handlers_never_delete c s :
  dom (rides s) ⊆ dom (rides (runCall c s).2) ∧
  dom (drivers (runCall c s).2) = dom (drivers s) ∧
  ∃ new, events (runCall c s).2 = events s ++ new ∧ length new ≤ 1.
Proof.
  assert (Hnil : ∃ new, events s = events s ++ new ∧ length new ≤ 1)
    by (exists []; rewrite app_nil_r; simpl; split; [done|lia]).
  assert (Hone : ∀ e, ∃ new, events s ++ [e] = events s ++ new ∧ length new ≤ 1)
    by (intros e; exists [e]; split; [done|simpl; lia]).
  destruct c as [clock uuid ev|clock ev|clock ev]; simpl.
  - unfold requestRide.
    destruct (Utils.callerId _); [|done].
    destruct (schemas_ride_validate _); [done|].
    destruct (bool_decide _); [done|]. simpl.
    split; [rewrite dom_insert_L; apply union_subseteq_r|]. split; [done|]. apply Hone.
  - unfold acceptRide.
    destruct (Utils.callerId _); [|done].
    destruct (rides s !! _); [|done].
    destruct (negb _); [done|].
    destruct (drivers s !! _); [|done].
    destruct (negb _); [done|]. simpl.
    rewrite !dom_alter_L. split; [done|]. split; [done|]. apply Hone.
  - unfold updateRideStatus.
    destruct (Utils.callerId _); [|done].
    destruct (negb (bool_decide _)); [done|].
    destruct (rides s !! _); [|done].
    destruct (negb _ && negb _); [done|].
    destruct (if String.eqb _ _ then _ else _) as [did|]; simpl.
    + destruct (drivers s !! did); simpl; rewrite ?dom_alter_L;
        (split; [done|]); (split; [done|]); [apply Hone | apply Hnil].
    + rewrite dom_alter_L. split; [done|]. split; [done|]. apply Hone.
Qed.

(** *** The distance and the estimate *)

Lemma calculateDistance_unfold lat1 lon1 lat2 lon2 :
  calculateDistance lat1 lon1 lat2 lon2 =
  (6371 * (2 * JSMath.atan2 (sqrt (haversine_a lat1 lon1 lat2 lon2))
                            (sqrt (1 - haversine_a lat1 lon1 lat2 lon2))))%R.
Proof. reflexivity. Qed.

Lemma haversine_a_sym lat1 lon1 lat2 lon2 :
  haversine_a lat1 lon1 lat2 lon2 = haversine_a lat2 lon2 lat1 lon1.
Proof.
  unfold haversine_a.
  replace ((Q2R lat1 - Q2R lat2) * PI / 180 / 2)%R
    with (- ((Q2R lat2 - Q2R lat1) * PI / 180 / 2))%R by lra.
  replace ((Q2R lon1 - Q2R lon2) * PI / 180 / 2)%R
    with (- ((Q2R lon2 - Q2R lon1) * PI / 180 / 2))%R by lra.
  rewrite !sin_neg. ring.
Qed.

(** X7. [calculateDistance] gives the same distance in both directions, and
    0 from a point to itself: exchanging the two points only changes the
    sign of the two differences, each of which enters through the square of
    its sine. *)
Theorem calculateDistance_symmetric lat1 lon1 lat2 lon2 :
  calculateDistance lat1 lon1 lat2 lon2 = calculateDistance lat2 lon2 lat1 lon1 ∧
  calculateDistance lat1 lon1 lat1 lon1 = 0%R.
Proof.
  split.
  - rewrite !calculateDistance_unfold, (haversine_a_sym lat1 lon1 lat2 lon2).
    reflexivity.
  - apply DriverFacts.calculateDistance_same.
Qed.

Lemma perKmRate_rideTypes ty :
  ty ∈ rideTypes → ∃ rate, perKmRate ty = Some rate.
Proof.
  unfold rideTypes. intros H.
  repeat (apply elem_of_cons in H as [->|H]; [eexists; reflexivity|]).
  by apply elem_of_nil in H.
Qed.

Lemma between_range lo hi q : between lo hi q = true → (lo <= q <= hi)%Q.
Proof.
  unfold between. intros H. apply andb_true_iff in H as [Hlo Hhi].
  split; by apply Qle_bool_iff.
Qed.

Lemma validateLocation_range path l :
  validateLocation path l = None →
  (-90 <= Loc.lat l <= 90)%Q ∧ (-180 <= Loc.lng l <= 180)%Q.
Proof.
  unfold validateLocation.
  destruct (between (-90) 90 (Loc.lat l)) eqn:Hlat; [|discriminate].
  destruct (between (-180) 180 (Loc.lng l)) eqn:Hlng; [|discriminate].
  intros _. split; by apply between_range.
Qed.

Lemma validated_in_range body value :
  schemas_ride_validate body = inr value →
  ((-90 <= Loc.lat (pickupLocation value) <= 90)%Q ∧
   (-180 <= Loc.lng (pickupLocation value) <= 180)%Q) ∧
  ((-90 <= Loc.lat (dropoffLocation value) <= 90)%Q ∧
   (-180 <= Loc.lng (dropoffLocation value) <= 180)%Q) ∧
  ∃ ty, rideType value = Some ty ∧ ty ∈ rideTypes.
Proof.
  unfold schemas_ride_validate.
  destruct (validateLocation "pickupLocation" _) eqn:Hp; [discriminate|].
  destruct (validateLocation "dropoffLocation" _) eqn:Hd; [discriminate|].
  apply validateLocation_range in Hp, Hd.
  destruct (rideType body) as [ty|] eqn:Hty.
  - destruct (bool_decide_reflect (ty ∈ rideTypes)); [|discriminate].
    intros [= <-]. split; [exact Hp|]. split; [exact Hd|]. by exists ty.
  - intros [= <-]. simpl. split; [exact Hp|]. split; [exact Hd|].
    exists "standard". split; [reflexivity|compute_done].
Qed.

(** X8. A ride that [requestRide] creates (answer 201) is stored under the
    fresh id as [requested] with no driver; its coordinates are within the
    bounds of the schema and its type is one of the three ride types, so a
    per-kilometre rate exists for it; its estimated distance is
    [calculateDistance] from pickup to dropoff, its estimated fare is 2.50
    plus that distance times the rate of its type, and the response carries
    the same two estimates. *)
Theorem created_ride_estimate clock uuid ev s :
  statusCode (requestRide clock uuid ev s).1 = 201 →
  ∃ r rate,
    rides (requestRide clock uuid ev s).2 !! uuid = Some r ∧
    (requestRide clock uuid ev s).1
    = createResponse 201
        (RideCreated uuid "requested" (Ride.estimatedFare r) (Ride.estimatedDistance r)) ∧
    Ride.status r = "requested" ∧ Ride.driverId r = None ∧
    ((-90 <= Loc.lat (Ride.pickupLocation r) <= 90)%Q ∧
     (-180 <= Loc.lng (Ride.pickupLocation r) <= 180)%Q) ∧
    ((-90 <= Loc.lat (Ride.dropoffLocation r) <= 90)%Q ∧
     (-180 <= Loc.lng (Ride.dropoffLocation r) <= 180)%Q) ∧
    Ride.rideType r ∈ rideTypes ∧
    perKmRate (Ride.rideType r) = Some rate ∧
    Ride.estimatedDistance r
    = calculateDistance (Loc.lat (Ride.pickupLocation r)) (Loc.lng (Ride.pickupLocation r))
        (Loc.lat (Ride.dropoffLocation r)) (Loc.lng (Ride.dropoffLocation r)) ∧
    Ride.estimatedFare r = (25 / 10 + Ride.estimatedDistance r * rate)%R.
Proof.
  unfold requestRide.
  destruct (Utils.callerId (req_authorization ev)) as [uid|]; [|discriminate].
  destruct (schemas_ride_validate (req_body ev)) as [e|value] eqn:Hv; [discriminate|].
  destruct (bool_decide _); [discriminate|]. intros _. simpl.
  apply validated_in_range in Hv as (Hp & Hd & ty & Hty & Hin).
  destruct (perKmRate_rideTypes ty Hin) as (rate & Hrate).
  exists (newRide clock uuid uid value), rate.
  rewrite lookup_insert_eq. unfold newRide. simpl. rewrite Hty. simpl.
  unfold calculateEstimatedFare. rewrite Hrate. simpl.
  split; [reflexivity|]. split; [reflexivity|]. split; [reflexivity|].
  split; [reflexivity|]. split; [exact Hp|]. split; [exact Hd|].
  split; [exact Hin|]. split; [reflexivity|]. split; reflexivity.
Qed.

Lemma created_ride_estimate_witness :
  ∃ r, rides (requestRide demoClock "r2"
                (mkRequestEvent (Some (unsignedToken "u2")) demoBody) driversDb).2 !! "r2"
       = Some r ∧
       Ride.status r = "requested" ∧ Ride.rideType r ∈ rideTypes.
Proof.
  destruct (created_ride_estimate demoClock "r2"
              (mkRequestEvent (Some (unsignedToken "u2")) demoBody) driversDb)
    as (r & rate & Hr & _ & Hst & _ & _ & _ & Hty & _).
  - reflexivity.
  - exists r. split; [exact Hr|]. split; [exact Hst | exact Hty].
Defined.

End RideMore.

(** ** Driver service: the grid, the bucket pass, the ranking *)

Module DriverMore.
Import DriverService DriverNotions Examples MoreExamples DriverFacts.

Lemma elem_of_stepRange steps i :
  i ∈ stepRange steps ↔ (- steps ≤ i ≤ steps)%Z.
Proof.
  unfold stepRange. rewrite list_elem_of_fmap. split.
  - intros (k & -> & Hk). apply elem_of_seq in Hk. lia.
  - intros Hi. exists (Z.to_nat (i + steps)). split; [lia|].
    apply elem_of_seq. lia.
Qed.

Lemma length_stepRange steps : length (stepRange steps) = Z.to_nat (2 * steps + 1).
Proof. unfold stepRange. by rewrite length_fmap, length_seq. Qed.

Lemma foldl_setAdd acc l :
  NoDup acc →
  NoDup (foldl setAdd acc l) ∧
  (∀ h, h ∈ foldl setAdd acc l ↔ h ∈ acc ∨ h ∈ l) ∧
  length (foldl setAdd acc l) ≤ length acc + length l.
Proof.
  revert acc. induction l as [|x l IH]; intros acc Hnd; simpl.
  - split; [assumption|]. split; [|lia]. intros h. rewrite elem_of_nil. tauto.
  - unfold setAdd at 2 4 6. destruct (bool_decide_reflect (x ∈ acc)) as [Hin|Hin].
    + destruct (IH acc Hnd) as (Hnd' & Hiff & Hlen). split; [assumption|]. split; [|lia].
      intros h. rewrite Hiff, elem_of_cons. split; [tauto|].
      intros [?|[->|?]]; tauto.
    + destruct (IH (acc ++ [x])) as (Hnd' & Hiff & Hlen).
      { apply NoDup_app. split; [assumption|]. split; [|apply NoDup_singleton].
        intros y Hy Hy'. apply list_elem_of_singleton in Hy'. by subst. }
      split; [assumption|]. split.
      * intros h. rewrite Hiff, elem_of_app, list_elem_of_singleton, elem_of_cons. tauto.
      * rewrite length_app in Hlen. simpl in Hlen. lia.
Qed.

Lemma length_bind_singleton {A B} (g : A → B) (l : list A) :
  length (j ← l; [g j]) = length l.
Proof.
  induction l as [|j l IH]; [reflexivity|].
  rewrite bind_cons, length_app, IH. reflexivity.
Qed.

(** The points the two loops visit, one hash each. *)
Lemma length_grid {A} (f : Z → Z → A) (l1 l2 : list Z) :
  length (i ← l1; j ← l2; [f i j]) = length l1 * length l2.
Proof.
  induction l1 as [|i l1 IH]; [reflexivity|].
  rewrite bind_cons, length_app, IH, length_bind_singleton. reflexivity.
Qed.

Lemma generateLocationHash_cell lat lng :
  generateLocationHash lat lng = cellHash (Qfloor (lat * 100)) (Qfloor (lng * 100)).
Proof. reflexivity. Qed.

Lemma ring_NoDup lat lng radiusKm :
  NoDup (generateNearbyLocationHashes lat lng radiusKm).
Proof.
  unfold generateNearbyLocationHashes. apply foldl_setAdd, NoDup_nil_2.
Qed.

Lemma elem_of_ring lat lng radiusKm h :
  h ∈ generateNearbyLocationHashes lat lng radiusKm ↔
  ∃ i j, (- Qceiling (radiusKm / (11132 # 100)) ≤ i ≤ Qceiling (radiusKm / (11132 # 100)))%Z ∧
         (- Qceiling (radiusKm / (11132 # 100)) ≤ j ≤ Qceiling (radiusKm / (11132 # 100)))%Z ∧
         h = generateLocationHash (lat + inject_Z i * (1 # 100))
                                  (lng + inject_Z j * (1 # 100)).
Proof.
  unfold generateNearbyLocationHashes.
  set (steps := Qceiling (radiusKm / (11132 # 100))).
  destruct (foldl_setAdd []
    (i ← stepRange steps; j ← stepRange steps;
     [generateLocationHash (lat + inject_Z i * (1 # 100))
                           (lng + inject_Z j * (1 # 100))]) (NoDup_nil_2))
    as (_ & Hiff & _).
  rewrite Hiff, elem_of_nil, list_elem_of_bind. split.
  - intros [[]|(i & Hh & Hi)]. apply list_elem_of_bind in Hh as (j & Hh & Hj).
    apply list_elem_of_singleton in Hh.
    exists i, j. rewrite <- !elem_of_stepRange. done.
  - intros (i & j & Hi & Hj & ->). right. exists i.
    rewrite elem_of_stepRange. split; [|done].
    apply list_elem_of_bind. exists j. rewrite elem_of_stepRange. split; [|done].
    by apply list_elem_of_singleton.
Qed.

Lemma ring_length lat lng radiusKm :
  length (generateNearbyLocationHashes lat lng radiusKm)
  ≤ Z.to_nat (2 * Qceiling (radiusKm / (11132 # 100)) + 1)
    * Z.to_nat (2 * Qceiling (radiusKm / (11132 # 100)) + 1).
Proof.
  unfold generateNearbyLocationHashes.
  set (steps := Qceiling (radiusKm / (11132 # 100))).
  destruct (foldl_setAdd []
    (i ← stepRange steps; j ← stepRange steps;
     [generateLocationHash (lat + inject_Z i * (1 # 100))
                           (lng + inject_Z j * (1 # 100))]) (NoDup_nil_2))
    as (_ & _ & Hlen).
  etrans; [exact Hlen|]. simpl.
  rewrite (length_grid (λ i j, generateLocationHash (lat + inject_Z i * (1 # 100))
                                 (lng + inject_Z j * (1 # 100)))).
  by rewrite !length_stepRange.
Qed.

(** The centre of the ring: the point the loops visit at [i = j = 0]. *)
Lemma ring_centre lat lng radiusKm :
  (0 <= radiusKm)%Q →
  generateLocationHash lat lng ∈ generateNearbyLocationHashes lat lng radiusKm.
Proof.
  intros Hnn. apply elem_of_ring. exists 0%Z, 0%Z.
  assert (H0 : (0 <= radiusKm / (11132 # 100))%Q).
  { apply Qle_shift_div_l; [reflexivity|]. by rewrite Qmult_0_l. }
  pose proof (Qceiling_resp_le _ _ H0) as Hc. change (Qceiling 0) with 0%Z in Hc.
  split; [lia|]. split; [lia|].
  unfold generateLocationHash.
  assert (Hlat : ((lat + inject_Z 0 * (1 # 100)) * 100 == lat * 100)%Q) by ring.
  assert (Hlng : ((lng + inject_Z 0 * (1 # 100)) * 100 == lng * 100)%Q) by ring.
  by rewrite (Qfloor_comp _ _ Hlat), (Qfloor_comp _ _ Hlng).
Qed.

(** X9. [generateNearbyLocationHashes] returns, without repetition, the
    hashes of the points [(lat + i * 0.01, lng + j * 0.01)] for [i] and [j]
    from [-steps] to [steps], where [steps = ceil(radiusKm / 111.32)]: at
    most [(2 * steps + 1)^2] keys.  The ring grows with the radius in units
    of 111.32 km, not of the 0.01-degree cell: for every radius up to
    111.32 km it has at most nine keys.  The hash of the query point itself
    is always among them. *)
Theorem ring_keys lat lng radiusKm :
  let ring := generateNearbyLocationHashes lat lng radiusKm in
  let steps := Qceiling (radiusKm / (11132 # 100)) in
  NoDup ring ∧
  (∀ h, h ∈ ring ↔
        ∃ i j, (- steps ≤ i ≤ steps)%Z ∧ (- steps ≤ j ≤ steps)%Z ∧
               h = generateLocationHash (lat + inject_Z i * (1 # 100))
                                        (lng + inject_Z j * (1 # 100))) ∧
  length ring ≤ Z.to_nat (2 * steps + 1) * Z.to_nat (2 * steps + 1) ∧
  ((0 < radiusKm)%Q → (radiusKm <= 11132 # 100)%Q → length ring ≤ 9) ∧
  ((0 <= radiusKm)%Q → generateLocationHash lat lng ∈ ring).
Proof.
  intros ring steps.
  split; [apply ring_NoDup|]. split; [intros h; apply elem_of_ring|].
  split; [apply ring_length|]. split; [|apply ring_centre].
  intros Hpos Hle.
  assert (H1 : (radiusKm / (11132 # 100) <= 1)%Q).
  { apply Qle_shift_div_r; [reflexivity|]. by rewrite Qmult_1_l. }
  pose proof (Qceiling_resp_le _ _ H1) as Hc1. change (Qceiling 1) with 1%Z in Hc1.
  etrans; [apply ring_length|]. fold steps in Hc1 |- *.
  assert (Z.to_nat (2 * steps + 1) ≤ 3) by lia. nia.
Qed.

Lemma pretty_N_char_free x : pretty_N_char x ≠ "_"%char.
Proof. unfold pretty_N_char. repeat case_match; discriminate. Qed.

Lemma pretty_N_go_free x s : underscoreFree s → underscoreFree (pretty_N_go x s).
Proof.
  revert s. induction (N.lt_wf_0 x) as [x _ IH]. intros s Hs.
  destruct (decide (x = 0)%N) as [->|Hx]; [by rewrite pretty_N_go_0|].
  rewrite pretty_N_go_step by lia. apply IH.
  - apply N.div_lt; lia.
  - split; [apply pretty_N_char_free | assumption].
Qed.

Lemma pretty_N_free (x : N) : underscoreFree (pretty x).
Proof.
  unfold pretty, pretty_N. destruct (decide (x = 0)%N); [by split|].
  by apply pretty_N_go_free.
Qed.

Lemma pretty_Z_free (z : Z) : underscoreFree (pretty z).
Proof.
  destruct z as [|p|p]; simpl.
  - by split.
  - apply (pretty_N_free (N.pos p)).
  - split; [discriminate|]. apply (pretty_N_free (N.pos p)).
Qed.

Lemma underscore_split s1 s2 t1 t2 :
  underscoreFree s1 → underscoreFree s2 →
  s1 +:+ String "_" t1 = s2 +:+ String "_" t2 → s1 = s2 ∧ t1 = t2.
Proof.
  revert s2. induction s1 as [|c s1 IH]; intros [|c' s2] H1 H2 Heq; simpl in *.
  - by injection Heq as ->.
  - injection Heq as <- _. by destruct H2.
  - injection Heq as -> _. by destruct H1.
  - injection Heq as -> Heq. destruct H1 as [_ H1], H2 as [_ H2].
    destruct (IH s2 H1 H2 Heq) as [-> ->]. done.
Qed.

Lemma cellHash_inj a b c d : cellHash a b = cellHash c d → a = c ∧ b = d.
Proof.
  unfold cellHash. intros H.
  apply underscore_split in H as [Ha Hb]; try apply pretty_Z_free.
  split; by apply (inj pretty).
Qed.

(** X10. Two positions get the same [locationHash] exactly when they lie in
    the same cell of the 0.01-degree grid: the key does not confuse two
    cells, negative coordinates included. *)
Theorem generateLocationHash_same_cell lat1 lng1 lat2 lng2 :
  generateLocationHash lat1 lng1 = generateLocationHash lat2 lng2 ↔
  Qfloor (lat1 * 100) = Qfloor (lat2 * 100) ∧ Qfloor (lng1 * 100) = Qfloor (lng2 * 100).
Proof.
  rewrite !generateLocationHash_cell. split.
  - apply cellHash_inj.
  - intros [-> ->]. reflexivity.
Qed.

(** X11. A driver whose position lies in the same grid cell as the query
    point is always among the candidates of [getNearbyDrivers], for any
    radius that is not negative, provided the driver is stored under the
    hash of that position and is [available] and active. *)
Theorem same_cell_driver_is_candidate lat lng radius (t : gmap string Driver.t) k d loc :
  t !! k = Some d →
  Driver.status d = "available" →
  Driver.isActive d = true →
  Driver.location d = Some loc →
  Driver.locationHash d = Some (generateLocationHash (Loc.lat loc) (Loc.lng loc)) →
  Qfloor (Loc.lat loc * 100) = Qfloor (lat * 100) →
  Qfloor (Loc.lng loc * 100) = Qfloor (lng * 100) →
  (0 <= radius)%Q →
  d ∈ bucketCandidates lat lng radius t.
Proof.
  intros Hk Hst Hact Hloc Hhash Hlat Hlng Hnn.
  apply elem_of_bucketCandidates.
  exists (generateLocationHash lat lng), k.
  split; [by apply ring_centre|]. split; [exact Hk|]. split; [|done].
  rewrite Hhash. f_equal. rewrite !generateLocationHash_cell. by rewrite Hlat, Hlng.
Qed.

Lemma same_cell_driver_is_candidate_witness :
  nearDriver ∈ bucketCandidates 1 (1001 # 1000) 5 (drivers nearDb).
Proof.
  apply (same_cell_driver_is_candidate 1 (1001 # 1000) 5 (drivers nearDb) "d1" nearDriver
           (Loc.mk 1 1 None)); try reflexivity.
  discriminate.
Defined.

Lemma insertByScore_sorted x l :
  StronglySorted byScore l → StronglySorted byScore (insertByScore x l).
Proof.
  induction 1 as [|y l Hs IH Hall]; simpl.
  - constructor; [constructor|constructor].
  - destruct (Rlt_dec (score y) (score x)) as [Hlt|Hge].
    + constructor; [by constructor|].
      constructor; [unfold byScore; lra|].
      eapply Forall_impl; [exact Hall|]. unfold byScore. intros z Hz. lra.
    + constructor; [exact IH|].
      rewrite insertByScore_perm. constructor; [unfold byScore; lra | exact Hall].
Qed.

Lemma sortByScore_sorted l : StronglySorted byScore (sortByScore l).
Proof.
  unfold sortByScore.
  enough (H : ∀ acc, StronglySorted byScore acc →
                     StronglySorted byScore (foldl (λ acc x, insertByScore x acc) acc l))
    by (apply H; constructor).
  induction l as [|x l IH]; intros acc Hacc; simpl; [assumption|].
  apply IH. by apply insertByScore_sorted.
Qed.

Lemma StronglySorted_take {A} (R : A → A → Prop) n l :
  StronglySorted R l → StronglySorted R (take n l).
Proof.
  intros H. revert n. induction H as [|x l Hs IH Hall]; intros [|n]; simpl;
    try constructor.
  - apply IH.
  - apply Forall_take. exact Hall.
Qed.

(** X12. A successful [getNearbyDrivers] response lists at most ten
    drivers, and every listed driver has a score
    [rating * 0.3 - distance * 0.7] at least as high as each driver listed
    after it. *)
Theorem nearby_ranked_and_capped ev s l :
  responseBody (getNearbyDrivers ev s) = Drivers l →
  length l ≤ 10 ∧ StronglySorted byScore l.
Proof.
  unfold getNearbyDrivers.
  destruct (q_lat ev) as [latitude|]; [|discriminate].
  destruct (q_lng ev) as [longitude|]; [|discriminate].
  simpl. intros [= <-]. unfold sortedDrivers. split.
  - rewrite length_take. lia.
  - apply StronglySorted_take, sortByScore_sorted.
Qed.

Lemma nearby_ranked_and_capped_witness :
  length [(nearDriver, calculateDistance 1 1 1 1)] ≤ 10 ∧
  StronglySorted byScore [(nearDriver, calculateDistance 1 1 1 1)].
Proof.
  apply (nearby_ranked_and_capped nearbyQuery nearDb).
  rewrite nearDb_response. reflexivity.
Defined.

Lemma keyed_values_NoDup (t : gmap string Driver.t) :
  keyed t → NoDup (map_to_list t).*2.
Proof.
  intros Hk. apply NoDup_fmap_2_strong; [|apply NoDup_map_to_list].
  intros [k1 d1] [k2 d2] H1 H2 Heq. simpl in Heq. subst d2.
  apply elem_of_map_to_list in H1, H2.
  by rewrite <- (Hk k1 d1 H1), <- (Hk k2 d1 H2).
Qed.

Lemma bucketCandidates_NoDup latitude longitude radius t :
  keyed t → NoDup (bucketCandidates latitude longitude radius t).
Proof.
  intros Hk. unfold bucketCandidates. apply NoDup_bind.
  - intros h1 h2 d _ _ H1 H2. unfold queryLocationIndex in *.
    apply list_elem_of_filter in H1 as [(H1 & _) _].
    apply list_elem_of_filter in H2 as [(H2 & _) _]. congruence.
  - intros h _. apply NoDup_filter. by apply keyed_values_NoDup.
  - apply ring_NoDup.
Qed.

Lemma withDistance_fst latitude longitude (l : list Driver.t) :
  ((λ d, (d, distanceTo latitude longitude d)) <$> l).*1 = l.
Proof.
  induction l as [|d l IH]; [reflexivity|].
  rewrite !fmap_cons. simpl. f_equal. exact IH.
Qed.

(** X13. When every driver item is stored under its own [driverId], no
    driver is listed twice in a [getNearbyDrivers] response, although the
    handler queries several buckets and concatenates what they return. *)
Theorem nearby_no_duplicates ev s l :
  keyed (drivers s) →
  responseBody (getNearbyDrivers ev s) = Drivers l →
  NoDup l.*1.
Proof.
  intros Hk. unfold getNearbyDrivers.
  destruct (q_lat ev) as [latitude|]; [|discriminate].
  destruct (q_lng ev) as [longitude|]; [|discriminate].
  simpl. intros [= <-]. unfold sortedDrivers.
  rewrite fmap_take. eapply sublist_NoDup; [|apply sublist_take].
  rewrite sortByScore_perm, withDistance_fst.
  rewrite nearbyDrivers_filter. apply NoDup_filter. by apply bucketCandidates_NoDup.
Qed.

Lemma nearby_no_duplicates_witness :
  NoDup [(nearDriver, calculateDistance 1 1 1 1)].*1.
Proof.
  apply (nearby_no_duplicates nearbyQuery nearDb).
  - unfold keyed. compute_done.
  - rewrite nearDb_response. reflexivity.
Defined.

(** X14. A driver that the bucket pass yields and that is within the radius
    is in the response, with its distance from the query point, whenever no
    more than ten drivers qualify. *)
Theorem qualifying_driver_returned latitude longitude radius s d :
  d ∈ bucketCandidates latitude longitude radius (drivers s) →
  withinRadius latitude longitude radius d →
  length (nearbyDrivers latitude longitude radius (drivers s)) ≤ 10 →
  ∃ l, getNearbyDrivers (mkNearbyEvent (Some latitude) (Some longitude) (Some radius)) s
       = createResponse 200 (Drivers l) ∧
       (d, distanceTo latitude longitude d) ∈ l.
Proof.
  intros Hc Hw Hlen. eexists. split; [reflexivity|].
  unfold sortedDrivers. simpl. rewrite take_ge.
  - rewrite sortByScore_perm.
    apply (list_elem_of_fmap_2 (λ d, (d, distanceTo latitude longitude d))).
    rewrite nearbyDrivers_filter. by apply list_elem_of_filter.
  - rewrite sortByScore_perm, length_fmap. exact Hlen.
Qed.

Lemma nearDb_candidates : bucketCandidates 1 1 5 (drivers nearDb) = [nearDriver].
Proof. vm_compute. reflexivity. Qed.

Lemma qualifying_driver_returned_witness :
  ∃ l, getNearbyDrivers nearbyQuery nearDb = createResponse 200 (Drivers l) ∧
       (nearDriver, distanceTo 1 1 nearDriver) ∈ l.
Proof.
  apply (qualifying_driver_returned 1 1 5 nearDb nearDriver).
  - rewrite nearDb_candidates. apply list_elem_of_singleton. reflexivity.
  - unfold withinRadius. simpl. rewrite calculateDistance_same.
    unfold Q2R. simpl. lra.
  - rewrite nearbyDrivers_filter, nearDb_candidates.
    etrans; [apply length_filter|]. simpl. lia.
Defined.

(** *** Positions and bucket keys *)

Lemma hashConsistent_alter (f : Driver.t → Driver.t) k (t : gmap string Driver.t) :
  (∀ d, Driver.location (f d) = Driver.location d ∧
        Driver.locationHash (f d) = Driver.locationHash d) →
  hashConsistent t → hashConsistent (alter f k t).
Proof.
  intros Hf Ht k' d' Hlook l Hl.
  apply lookup_alter_Some in Hlook as [(-> & d & Hd & ->)|[_ Hd]].
  - destruct (Hf d) as [Hloc Hhash]. rewrite Hhash. rewrite Hloc in Hl.
    by apply (Ht k' d Hd).
  - by apply (Ht k' d' Hd).
Qed.

(** X15. If every driver that has a position is stored under the hash of
    that position, this is still so after [updateAvailability] by a caller
    who has a driver item, whatever the answer, and after any call of the
    ride handlers: the two attributes are only ever written together. *)
Theorem bucket_key_follows_location s :
  hashConsistent (drivers s) →
  (∀ clock ev did,
     Utils.callerId (av_authorization ev) = Some did →
     is_Some (drivers s !! did) →
     ∃ resp s', updateAvailability clock ev s = Some (resp, s') ∧
                hashConsistent (drivers s')) ∧
  (∀ c, hashConsistent (drivers (RideService.runCall c s).2)).
Proof.
  intros Hs. split.
  - intros clock ev did Hc [dr Hdr]. unfold updateAvailability. rewrite Hc.
    destruct (negb (bool_decide _)); [by eexists _, _|].
    rewrite Hdr. eexists _, _. split; [reflexivity|]. simpl.
    intros k d Hlook l Hl.
    apply lookup_alter_Some in Hlook as [(-> & d0 & Hd0 & ->)|[_ Hd]].
    + unfold setAvailability in *. simpl in *.
      destruct (usableLocation (av_location ev)) as [l'|].
      * by injection Hl as ->.
      * by apply (Hs k d0 Hd0).
    + by apply (Hs k d Hd).
  - intros [clock uuid ev|clock ev|clock ev]; simpl.
    + unfold RideService.requestRide.
      destruct (Utils.callerId _); [|done].
      destruct (RideService.schemas_ride_validate _); [done|].
      destruct (bool_decide _); done.
    + unfold RideService.acceptRide.
      destruct (Utils.callerId _); [|done].
      destruct (rides s !! _); [|done].
      destruct (negb _); [done|].
      destruct (drivers s !! _); [|done].
      destruct (negb _); [done|]. simpl.
      by apply hashConsistent_alter.
    + unfold RideService.updateRideStatus.
      destruct (Utils.callerId _); [|done].
      destruct (negb (bool_decide _)); [done|].
      destruct (rides s !! _); [|done].
      destruct (negb _ && negb _); [done|].
      destruct (if String.eqb _ _ then _ else _) as [did|]; simpl; [|done].
      destruct (drivers s !! did); simpl; [|done].
      by apply hashConsistent_alter.
Qed.

Lemma driversDb_hashConsistent : hashConsistent (drivers driversDb).
Proof.
  apply map_Forall_insert_2; [intros l Hl; discriminate Hl|].
  apply map_Forall_singleton. intros l Hl. discriminate Hl.
Qed.

Lemma bucket_key_follows_location_witness :
  ∃ resp s',
    updateAvailability demoClock
      (mkAvailabilityEvent (Some (unsignedToken "d1")) "available" (Some (Loc.mk 1 1 None)))
      driversDb = Some (resp, s') ∧
    hashConsistent (drivers s').
Proof.
  destruct (bucket_key_follows_location driversDb driversDb_hashConsistent)
    as [Hupd _].
  apply (Hupd demoClock
           (mkAvailabilityEvent (Some (unsignedToken "d1")) "available"
              (Some (Loc.mk 1 1 None))) "d1").
  - reflexivity.
  - eexists. reflexivity.
Defined.

(** X16. A reported position with latitude 0 or longitude 0 is treated as
    absent: the status is updated and answered 200, but the stored position
    and bucket key stay as they were and the published event carries no
    location. *)
Theorem zero_coordinate_is_dropped clock ev s did dr l :
  Utils.callerId (av_authorization ev) = Some did →
  av_status ev ∈ availabilityStatuses →
  drivers s !! did = Some dr →
  av_location ev = Some l →
  (Loc.lat l == 0 ∨ Loc.lng l == 0)%Q →
  ∃ s' dr',
    updateAvailability clock ev s
    = Some (createResponse 200 (Message "Availability updated successfully"), s') ∧
    drivers s' !! did = Some dr' ∧
    Driver.status dr' = av_status ev ∧
    Driver.location dr' = Driver.location dr ∧
    Driver.locationHash dr' = Driver.locationHash dr ∧
    last (events s') = Some (DriverAvailabilityChanged did (av_status ev) None).
Proof.
  intros Hc Hst Hdr Hloc Hzero. unfold updateAvailability.
  rewrite Hc, (bool_decide_eq_true_2 _ Hst), Hdr, Hloc. simpl.
  assert (Hu : JSMath.truthyQ (Loc.lat l) && JSMath.truthyQ (Loc.lng l) = false).
  { unfold JSMath.truthyQ. destruct Hzero as [Hz|Hz];
      apply Qeq_bool_iff in Hz; rewrite Hz; simpl; [reflexivity|].
    by rewrite andb_false_r. }
  rewrite Hu. eexists _, _. split; [reflexivity|]. simpl.
  rewrite lookup_alter_eq, Hdr. simpl. split; [reflexivity|].
  repeat split. by rewrite last_snoc.
Qed.

Lemma zero_coordinate_is_dropped_witness :
  ∃ s' dr',
    updateAvailability demoClock equatorUpdate raceDb
    = Some (createResponse 200 (Message "Availability updated successfully"), s') ∧
    drivers s' !! "d1" = Some dr' ∧
    Driver.status dr' = "available" ∧
    Driver.location dr' = None ∧
    Driver.locationHash dr' = None ∧
    last (events s') = Some (DriverAvailabilityChanged "d1" "available" None).
Proof.
  apply (zero_coordinate_is_dropped demoClock equatorUpdate raceDb "d1"
           (demoDriver "d1" "available" "D1234567") (Loc.mk 0 1 None)).
  - reflexivity.
  - compute_done.
  - reflexivity.
  - reflexivity.
  - left. reflexivity.
Defined.

(** *** The masked licence *)

Lemma substring_all s m : String.length s ≤ m → String.substring 0 m s = s.
Proof.
  revert m. induction s as [|c s IH]; intros [|m] H; simpl in *; try reflexivity; try lia.
  rewrite IH by lia. reflexivity.
Qed.

Lemma substring_drop n s :
  n ≤ String.length s →
  ∃ pre rest, s = pre +:+ rest ∧ String.length pre = n ∧
              String.length rest = String.length s - n ∧
              ∀ m, String.substring n m s = String.substring 0 m rest.
Proof.
  revert s. induction n as [|n IH]; intros s Hn.
  - exists "", s. repeat split. simpl. lia.
  - destruct s as [|c s]; simpl in Hn; [lia|].
    destruct (IH s ltac:(lia)) as (pre & rest & -> & Hpre & Hrest & Hsub).
    exists (String c pre), rest. simpl. repeat split; try lia. exact Hsub.
Qed.

Lemma lastFour_suffix s :
  ∃ pre, s = pre +:+ lastFour s ∧
         String.length (lastFour s) = String.length s `min` 4.
Proof.
  unfold lastFour.
  destruct (substring_drop (String.length s - 4) s ltac:(lia))
    as (pre & rest & Hs & Hpre & Hrest & Hsub).
  rewrite Hsub, substring_all by lia.
  exists pre. split; [exact Hs|]. lia.
Qed.

(** X17. The profile a registered driver gets back is the stored item with
    the licence number replaced by three asterisks and the end of the real
    number: its last four characters, or all of it when it is shorter. *)
Theorem profile_shows_last_four authorization s u d :
  Utils.callerId authorization = Some u →
  drivers s !! u = Some d →
  ∃ shown hidden,
    getDriverProfile authorization s
    = createResponse 200 (DriverProfile (setLicense ("***" +:+ shown) d)) ∧
    Driver.licenseNumber d = hidden +:+ shown ∧
    String.length shown = String.length (Driver.licenseNumber d) `min` 4.
Proof.
  intros Hc Hd. unfold getDriverProfile. rewrite Hc, Hd.
  destruct (lastFour_suffix (Driver.licenseNumber d)) as (pre & Hs & Hlen).
  exists (lastFour (Driver.licenseNumber d)), pre. split; [reflexivity|]. done.
Qed.

Lemma profile_shows_last_four_witness :
  ∃ shown hidden,
    getDriverProfile (Some (unsignedToken "d2")) raceDb
    = createResponse 200
        (DriverProfile (setLicense ("***" +:+ shown) (demoDriver "d2" "available" "D7654321"))) ∧
    "D7654321" = hidden +:+ shown ∧
    String.length shown = 8 `min` 4.
Proof.
  apply (profile_shows_last_four (Some (unsignedToken "d2")) raceDb "d2"
           (demoDriver "d2" "available" "D7654321")); reflexivity.
Defined.

(** *** Acceptance and the offer list *)

(** X18. Once a driver's [acceptRide] has succeeded, no [getNearbyDrivers]
    response computed on the resulting store lists that driver, as long as
    driver items are stored under their own ids. *)
Theorem accepted_driver_not_offered clock ev s q l e :
  keyed (drivers s) →
  RideService.statusCode (RideService.acceptRide clock ev s).1 = 200 →
  responseBody (getNearbyDrivers q (RideService.acceptRide clock ev s).2) = Drivers l →
  e ∈ l →
  Utils.callerId (RideService.acc_authorization ev) ≠ Some (Driver.driverId e.1).
Proof.
  intros Hk Hok Hbody He Hc.
  apply RideMore.acceptRide_success_inv in Hok
    as (d & ride & dr & Hc' & Hr & Hst & Hd & Hav).
  rewrite Hc in Hc'. injection Hc' as Hid. subst d.
  pose proof (RideFacts.acceptRide_ok clock ev s _ ride dr Hc Hr Hst Hd Hav) as Hacc.
  rewrite Hacc in Hbody. clear Hacc.
  unfold getNearbyDrivers in Hbody.
  destruct (q_lat q) as [latitude|]; [|discriminate].
  destruct (q_lng q) as [longitude|]; [|discriminate].
  simpl in Hbody. injection Hbody as <-.
  apply elem_of_sortedDrivers in He as (_ & _ & Hcand).
  apply elem_of_bucketCandidates in Hcand as (h & k & _ & Hlook & _ & Havail & _).
  apply lookup_alter_Some in Hlook as [(_ & d0 & Hd0 & Heq)|[Hne Hlook]].
  - rewrite Heq in Havail. discriminate.
  - apply Hne. by apply (Hk k e.1).
Qed.

Lemma offerDb_after_accept :
  getNearbyDrivers nearbyQuery (RideService.acceptRide demoClock acceptByD1 offerDb).2
  = createResponse 200 (Drivers [(nearDriver2, calculateDistance 1 1 1 1)]).
Proof.
  unfold getNearbyDrivers, nearbyQuery, sortedDrivers. simpl.
  rewrite nearbyDrivers_filter.
  assert (Hc : bucketCandidates 1 1 5
                 (drivers (RideService.acceptRide demoClock acceptByD1 offerDb).2)
               = [nearDriver2])
    by (vm_compute; reflexivity).
  rewrite Hc, filter_cons_True.
  - reflexivity.
  - unfold withinRadius. simpl. rewrite calculateDistance_same.
    unfold Q2R. simpl. lra.
Qed.

Lemma accepted_driver_not_offered_witness :
  Utils.callerId (RideService.acc_authorization acceptByD1)
  ≠ Some (Driver.driverId nearDriver2).
Proof.
  apply (accepted_driver_not_offered demoClock acceptByD1 offerDb nearbyQuery
           [(nearDriver2, calculateDistance 1 1 1 1)]
           (nearDriver2, calculateDistance 1 1 1 1)).
  - unfold keyed. compute_done.
  - reflexivity.
  - rewrite offerDb_after_accept. reflexivity.
  - apply list_elem_of_singleton. reflexivity.
Defined.

End DriverMore.

(** ** WebSocket service: the connection table and the pushes *)

Module WebSocketMore.
Import WebSocketService WebSocketNotions Examples MoreExamples WebSocketFacts.

Lemma connect_run clock cid u ty s :
  u ≠ "" → ty ≠ "" →
  handle (connect clock cid (Some u) (Some ty)) s =
    (createResponse 200 (Message "Connected successfully"),
     mkWs (<[cid := Conn.mk (Some u) (Some ty) (Some (clock 0%nat))
                            (Some (clock 1%nat)) None]> (connections s))
          (outbox s) 2).
Proof.
  intros Hu Hty. unfold handle, connect. simpl.
  rewrite !(UtilsFacts.truthyS_nonempty _ Hu), !(UtilsFacts.truthyS_nonempty _ Hty).
  reflexivity.
Qed.

(** X19. [connect] with a missing or empty [userId] or [userType] answers
    400 and writes nothing.  With both present it answers 200 and puts one
    item under the connection id, stamped with two clock readings and not
    disconnected, replacing whatever was stored there: from then on the
    connection is live, owned by that user and found by
    [getUserConnections]; every other connection and the outbox are
    untouched. *)
Theorem connect_registers clock cid userId userType s :
  let out := handle (connect clock cid userId userType) s in
  (JSMath.truthyId userId = None ∨ JSMath.truthyId userType = None →
     out = (createResponse 400 (Error "Missing required parameters"),
            mkWs (connections s) (outbox s) 0)) ∧
  (∀ u ty, userId = Some u → userType = Some ty → u ≠ "" → ty ≠ "" →
     out.1 = createResponse 200 (Message "Connected successfully") ∧
     connections out.2 !! cid
     = Some (Conn.mk (Some u) (Some ty) (Some (clock 0%nat)) (Some (clock 1%nat)) None) ∧
     live cid out.2 ∧ ownedBy cid u out.2 ∧
     cid ∈ (getUserConnections (Some u) out.2).1.*1 ∧
     (∀ k, k ≠ cid → connections out.2 !! k = connections s !! k) ∧
     outbox out.2 = outbox s).
Proof.
  intros out. split.
  - intros H. unfold out, handle, connect.
    destruct (JSMath.truthyId userId), (JSMath.truthyId userType);
      destruct H as [H|H]; try discriminate; reflexivity.
  - intros u ty -> -> Hu Hty. unfold out.
    rewrite (connect_run clock cid u ty s Hu Hty).
    set (c := Conn.mk _ _ _ _ _). cbn [fst snd connections outbox].
    assert (Hl : <[cid:=c]> (connections s) !! cid = Some c) by apply lookup_insert_eq.
    split; [reflexivity|]. split; [exact Hl|].
    assert (Hlive : live cid (mkWs (<[cid:=c]> (connections s)) (outbox s) 2))
      by (by exists c).
    assert (Hown : ownedBy cid u (mkWs (<[cid:=c]> (connections s)) (outbox s) 2))
      by (by exists c).
    split; [exact Hlive|]. split; [exact Hown|]. split.
    + by apply elem_of_connection_keys.
    + split; [|reflexivity]. intros k Hk. by apply lookup_insert_ne.
Qed.

(** X20. [sendMessageToConnection] records exactly one attempt and never
    touches another connection's item.  When the push fails with 410 or 403
    the connection is marked disconnected: it is no longer live and no later
    fanout attempts it.  On any other outcome, delivered or a different
    error, the table is left as it was. *)
Theorem gone_push_deregisters clock transport cid msg s :
  let out := sendMessageToConnection clock transport cid msg s in
  outbox out.2 = outbox s ++ [mkAttempt cid msg (transport (outbox s) cid msg)] ∧
  (∀ k, k ≠ cid → connections out.2 !! k = connections s !! k) ∧
  (transport (outbox s) cid msg ≠ Gone → connections out.2 = connections s) ∧
  (transport (outbox s) cid msg = Gone →
     ¬ live cid out.2 ∧
     ∀ clock' transport' targets mk,
       ∃ new, outbox (fanout clock' transport' targets mk out.2).2 = outbox out.2 ++ new ∧
              (cid ∉ recipients new)).
Proof.
  intros out. unfold out, sendMessageToConnection.
  destruct (transport (outbox s) cid msg) eqn:Hres;
    cbv [bind ret now modifyConnections]; cbn [fst snd connections outbox reads].
  - split; [reflexivity|]. split; [done|]. split; [done|]. discriminate.
  - split; [reflexivity|]. split.
    { intros k Hk. unfold upsert. by rewrite lookup_insert_ne. }
    split; [done|]. intros _.
    set (s1 := mkWs _ _ _).
    assert (Hdead : ¬ live cid s1).
    { intros (c & Hc & Hl). unfold s1 in Hc. simpl in Hc. unfold upsert in Hc.
      rewrite lookup_insert_eq in Hc. injection Hc as <-. discriminate Hl. }
    split; [exact Hdead|].
    intros clock' transport' targets mk.
    destruct (fanout_marked clock' transport' mk targets s1) as (new & [Ho _] & _ & Hrec).
    exists new. split; [exact Ho|]. intros Hin.
    apply Hrec in Hin as (u & _ & Hlive & _). contradiction.
  - split; [reflexivity|]. split; [done|]. split; [done|]. discriminate.
Qed.

(** X21. What [message] does with a frame that leads to no push.  A frame
    that names nobody to push to (an action that is none of the known
    ones, a [location_update] whose data has no ride id, an update for a
    ride that is not stored) is
    answered 200, and all it changes is the [lastActivity] of the sending
    connection, whose item is created if there is none.  A [location_update]
    or [ride_status_update] without [data] is answered 500, after the same
    change.  A body that cannot be parsed is answered 500 and changes
    nothing. *)
Theorem quiet_frame_only_touches clock transport rides cid frame s :
  let out := handle (message clock transport rides cid frame) s in
  let touched :=
    mkWs (upsert (Conn.setLastActivity (clock 0%nat)) cid (connections s))
         (outbox s) 1 in
  (quiet rides frame → out = (processed, touched)) ∧
  (frame = InLocationUpdateNoData ∨ frame = InRideStatusUpdateNoData →
     out = (failedToProcess, touched)) ∧
  (frame = InUnparsable →
     out = (failedToProcess, mkWs (connections s) (outbox s) 0)).
Proof.
  intros out touched. unfold out, touched. split; [|split].
  - intros Hq. unfold handle, message, handleLocationUpdate, handleRideStatusUpdate.
    destruct frame as [u loc rideId|rideId st txt| |a| | |]; simpl in Hq;
      try contradiction.
    + destruct (JSMath.truthyId rideId) as [rid|]; [rewrite Hq|]; reflexivity.
    + destruct rideId as [rid|]; [rewrite Hq|]; reflexivity.
    + reflexivity.
  - intros [->| ->]; reflexivity.
  - intros ->. reflexivity.
Qed.

(** X22. A [ping] frame is answered 200 and causes exactly one push, a
    [pong] to the sending connection itself; other connections' items are
    untouched and the sender keeps its owner. *)
Theorem ping_answers_pong clock transport rides cid s :
  let out := handle (message clock transport rides cid InPing) s in
  out.1 = createResponse 200 (Message "Message processed") ∧
  outbox out.2 = outbox s ++ [mkAttempt cid Pong (transport (outbox s) cid Pong)] ∧
  (∀ k, k ≠ cid → connections out.2 !! k = connections s !! k) ∧
  (∀ u, ownedBy cid u s → ownedBy cid u out.2).
Proof.
  intros out. unfold out.
  cbv [handle message bind ret now modifyConnections sendMessageToConnection].
  cbn [connections outbox reads].
  destruct (transport (outbox s) cid Pong); cbn [fst snd connections outbox reads].
  - split; [reflexivity|]. split; [reflexivity|]. split.
    + intros k Hk. unfold upsert. by rewrite lookup_insert_ne.
    + intros u (c & Hc & Hu). unfold ownedBy. simpl. unfold upsert.
      rewrite lookup_insert_eq, Hc. by eexists.
  - split; [reflexivity|]. split; [reflexivity|]. split.
    + intros k Hk. unfold upsert. by rewrite !lookup_insert_ne.
    + intros u (c & Hc & Hu). unfold ownedBy. simpl. unfold upsert.
      rewrite !lookup_insert_eq, Hc. by eexists.
  - split; [reflexivity|]. split; [reflexivity|]. split.
    + intros k Hk. unfold upsert. by rewrite lookup_insert_ne.
    + intros u (c & Hc & Hu). unfold ownedBy. simpl. unfold upsert.
      rewrite lookup_insert_eq, Hc. by eexists.
Qed.

End WebSocketMore.

(** ** Driver registration *)

Module RegistrationFacts.
Import DriverService DriverNotions Registration Examples MoreExamples.

Lemma registerDriver_created clock year ev s u value :
  Utils.callerId (reg_authorization ev) = Some u →
  schemas_driver_validate year (reg_body ev) = inr value →
  drivers (store s) !! u = None →
  registerDriver clock year ev s =
    (createResponse 201
       (Registered "Driver registered successfully" (maskLicense (newDriver clock u value))),
     mkReg (with_drivers (insert u (newDriver clock u value)) (store s))
           (upsertUser (User.setUserType "driver" (clock 1%nat)) u (users s))
           (registered s ++ [(u, u)])).
Proof. intros Hc Hv Hd. unfold registerDriver. rewrite Hc, Hv, Hd. reflexivity. Qed.

Lemma updateAvailability_ok clock ev s did dr :
  Utils.callerId (av_authorization ev) = Some did →
  av_status ev ∈ availabilityStatuses →
  drivers s !! did = Some dr →
  updateAvailability clock ev s =
    Some (DriverService.createResponse 200
            (DriverService.Message "Availability updated successfully"),
          mkDb (rides s)
               (alter (setAvailability (av_status ev) (clock 0%nat)
                         (usableLocation (av_location ev))) did (drivers s))
               (events s ++ [DriverAvailabilityChanged did (av_status ev)
                               (usableLocation (av_location ev))])).
Proof.
  intros Hc Hst Hd. unfold updateAvailability.
  rewrite Hc, (bool_decide_eq_true_2 _ Hst), Hd. reflexivity.
Qed.

Lemma acceptRide_unavailable clock ev s d ride dr :
  Utils.callerId (RideService.acc_authorization ev) = Some d →
  rides s !! RideService.acc_rideId ev = Some ride →
  Ride.status ride = "requested" →
  drivers s !! d = Some dr →
  Driver.status dr ≠ "available" →
  RideService.acceptRide clock ev s
  = (RideService.createResponse 409 (RideService.Error "Driver is not available"), s).
Proof.
  intros Hc Hr Hst Hd Hav. unfold RideService.acceptRide.
  rewrite Hc, Hr, Hst. simpl. rewrite Hd, (RideFacts.eqb_refl_false _ _ Hav).
  reflexivity.
Qed.

(** X23. A first valid [registerDriver] of a user answers 201 and stores the
    new driver under the user's own id, leaving every other driver and all
    rides alone and marking the user as a driver; the stored item has no
    position, so the conventions on keys and bucket keys are kept.  A second
    valid registration of the same user answers 409 and changes nothing. *)
Theorem registerDriver_once clock clock' year ev ev' s u value value' :
  Utils.callerId (reg_authorization ev) = Some u →
  schemas_driver_validate year (reg_body ev) = inr value →
  drivers (store s) !! u = None →
  Utils.callerId (reg_authorization ev') = Some u →
  schemas_driver_validate year (reg_body ev') = inr value' →
  let out := registerDriver clock year ev s in
  statusCode out.1 = 201 ∧
  drivers (store out.2) !! u = Some (newDriver clock u value) ∧
  (∀ k, k ≠ u → drivers (store out.2) !! k = drivers (store s) !! k) ∧
  rides (store out.2) = rides (store s) ∧
  User.userType <$> users out.2 !! u = Some (Some "driver") ∧
  (keyed (drivers (store s)) → keyed (drivers (store out.2))) ∧
  (hashConsistent (drivers (store s)) → hashConsistent (drivers (store out.2))) ∧
  registerDriver clock' year ev' out.2
  = (createResponse 409 (Error "Driver profile already exists"), out.2).
Proof.
  intros Hc Hv Hd Hc' Hv' out. unfold out.
  rewrite (registerDriver_created clock year ev s u value Hc Hv Hd). simpl.
  split; [reflexivity|]. split; [apply lookup_insert_eq|]. split.
  { intros k Hk. by apply lookup_insert_ne. }
  split; [reflexivity|]. split.
  { unfold upsertUser. rewrite lookup_insert_eq. reflexivity. }
  split.
  { intros Hk. apply map_Forall_insert_2; [reflexivity | exact Hk]. }
  split.
  { intros Hh. apply map_Forall_insert_2; [|exact Hh]. intros l Hl. discriminate Hl. }
  unfold registerDriver. rewrite Hc', Hv'. simpl. rewrite lookup_insert_eq. reflexivity.
Qed.

Lemma registerDriver_once_witness :
  let out := registerDriver demoClock 2024 (demoRegistration "d3") noDrivers in
  statusCode out.1 = 201 ∧
  registerDriver laterClock 2024 (demoRegistration "d3") out.2
  = (createResponse 409 (Error "Driver profile already exists"), out.2).
Proof.
  destruct (registerDriver_once demoClock laterClock 2024 (demoRegistration "d3")
              (demoRegistration "d3") noDrivers "d3"
              (mkDriverBody "D5550001" demoVehicle) (mkDriverBody "D5550001" demoVehicle))
    as (H201 & _ & _ & _ & _ & _ & _ & H409).
  - reflexivity.
  - reflexivity.
  - reflexivity.
  - reflexivity.
  - reflexivity.
  - split; [exact H201 | exact H409].
Defined.

(** X24. A driver is registered as [offline]: straight after registration
    the driver's [acceptRide] of a requested ride is refused with 409
    "Driver is not available"; after the driver has reported [available]
    through [updateAvailability], the same acceptance succeeds. *)
Theorem new_driver_must_go_available clock year ev s u value clockA evA clockB evB ride :
  Utils.callerId (reg_authorization ev) = Some u →
  schemas_driver_validate year (reg_body ev) = inr value →
  drivers (store s) !! u = None →
  Utils.callerId (RideService.acc_authorization evA) = Some u →
  Utils.callerId (av_authorization evB) = Some u →
  av_status evB = "available" →
  rides (store s) !! RideService.acc_rideId evA = Some ride →
  Ride.status ride = "requested" →
  let s1 := store (registerDriver clock year ev s).2 in
  RideService.acceptRide clockA evA s1
  = (RideService.createResponse 409 (RideService.Error "Driver is not available"), s1) ∧
  ∃ resp s2,
    updateAvailability clockB evB s1 = Some (resp, s2) ∧
    RideService.statusCode (RideService.acceptRide clockA evA s2).1 = 200.
Proof.
  intros Hc Hv Hd HcA HcB HstB Hride Hreq s1. unfold s1.
  rewrite (registerDriver_created clock year ev s u value Hc Hv Hd). simpl.
  set (s1' := with_drivers _ _).
  assert (Hd1 : drivers s1' !! u = Some (newDriver clock u value))
    by apply lookup_insert_eq.
  assert (Hr1 : rides s1' !! RideService.acc_rideId evA = Some ride) by exact Hride.
  split.
  - apply (acceptRide_unavailable clockA evA s1' u ride (newDriver clock u value));
      try assumption. discriminate.
  - rewrite (updateAvailability_ok clockB evB s1' u (newDriver clock u value) HcB)
      by (rewrite ?HstB; first [exact Hd1 | compute_done]).
    eexists _, _. split; [reflexivity|].
    set (s2 := mkDb _ _ _).
    assert (Hd2 : drivers s2 !! u
                  = Some (setAvailability (av_status evB) (clockB 0%nat)
                            (usableLocation (av_location evB)) (newDriver clock u value))).
    { unfold s2. cbn [drivers]. rewrite lookup_alter_eq, Hd1. reflexivity. }
    rewrite (RideFacts.acceptRide_ok clockA evA s2 u ride _ HcA Hr1 Hreq Hd2 HstB).
    reflexivity.
Qed.

Lemma new_driver_must_go_available_witness :
  let s1 := store (registerDriver demoClock 2024 (demoRegistration "d3") noDrivers).2 in
  RideService.acceptRide laterClock
    (RideService.mkAcceptEvent (Some (unsignedToken "d3")) "r1") s1
  = (RideService.createResponse 409 (RideService.Error "Driver is not available"), s1) ∧
  ∃ resp s2,
    updateAvailability laterClock
      (mkAvailabilityEvent (Some (unsignedToken "d3")) "available" None) s1
    = Some (resp, s2) ∧
    RideService.statusCode
      (RideService.acceptRide laterClock
         (RideService.mkAcceptEvent (Some (unsignedToken "d3")) "r1") s2).1 = 200.
Proof.
  apply (new_driver_must_go_available demoClock 2024 (demoRegistration "d3") noDrivers "d3"
           (mkDriverBody "D5550001" demoVehicle) laterClock
           (RideService.mkAcceptEvent (Some (unsignedToken "d3")) "r1") laterClock
           (mkAvailabilityEvent (Some (unsignedToken "d3")) "available" None)
           (demoRide "r1" "u1" None "requested"));
    reflexivity.
Defined.

End RegistrationFacts.

(** ** Payment service: the fare of a stored ride *)

Module PaymentFacts.
Import PaymentService Examples MoreExamples.

(** The payment service has the per-kilometre rates of the ride service. *)
Lemma perKmRates_same ty : perKmRates ty = RideService.perKmRate ty.
Proof. reflexivity. Qed.

Lemma peak_hours hour :
  peak hour = bool_decide ((7 ≤ hour ≤ 9)%Z ∨ (17 ≤ hour ≤ 20)%Z).
Proof.
  unfold peak.
  destruct (bool_decide_reflect ((7 ≤ hour ≤ 9)%Z ∨ (17 ≤ hour ≤ 20)%Z)) as [H|H].
  - apply orb_true_iff. destruct H as [H|H]; [right|left];
      apply andb_true_iff; split; apply Z.leb_le; lia.
  - apply orb_false_iff. split; apply andb_false_iff;
      destruct (Z.leb_spec 17 hour), (Z.leb_spec hour 20),
               (Z.leb_spec 7 hour), (Z.leb_spec hour 9); auto; exfalso; apply H; lia.
Qed.

(** X25. For a stored ride of one of the three types whose estimate is the
    one [requestRide] computes, [calculateFare] answers 200 with a breakdown
    that starts from that estimate: base fare 2.50 and distance fare add up
    to the ride's estimated fare; the surge multiplier is 1.5 from 7 to 9
    and from 17 to 20 o'clock and 1 otherwise, and outside those hours the
    surge amount is 0; the platform fee is 5 % of estimate times multiplier,
    the tax 8.75 % of that amount plus the fee, and [totalAmount] is the
    two-decimal rendering of their sum. *)
Theorem settled_fare_from_estimate toFixed2 hour rid s ride :
  rides s !! rid = Some ride →
  Ride.rideType ride ∈ RideService.rideTypes →
  Ride.estimatedFare ride
  = RideService.calculateEstimatedFare (Ride.estimatedDistance ride) (Ride.rideType ride) →
  ∃ fb,
    calculateFare toFixed2 hour rid s = Some (createResponse 200 (Fare fb)) ∧
    baseFare fb = (25 / 10)%R ∧
    (baseFare fb + distanceFare fb)%R = Ride.estimatedFare ride ∧
    surgeMultiplier fb
    = (if bool_decide ((7 ≤ hour ≤ 9)%Z ∨ (17 ≤ hour ≤ 20)%Z) then 15 / 10 else 1)%R ∧
    surgeAmount fb
    = (Ride.estimatedFare ride * surgeMultiplier fb - Ride.estimatedFare ride)%R ∧
    (¬ ((7 ≤ hour ≤ 9)%Z ∨ (17 ≤ hour ≤ 20)%Z) → surgeAmount fb = 0%R) ∧
    platformFee fb = (Ride.estimatedFare ride * surgeMultiplier fb * (5 / 100))%R ∧
    taxAmount fb
    = ((Ride.estimatedFare ride * surgeMultiplier fb + platformFee fb) * (875 / 10000))%R ∧
    totalAmount fb
    = toFixed2 (Ride.estimatedFare ride * surgeMultiplier fb + platformFee fb
                + taxAmount fb)%R.
Proof.
  intros Hr Hty Hest. unfold calculateFare. rewrite Hr.
  assert (Hrate : ∃ rate, perKmRates (Ride.rideType ride) = Some rate).
  { unfold RideService.rideTypes in Hty.
    repeat (apply elem_of_cons in Hty as [->|Hty]; [eexists; reflexivity|]).
    by apply elem_of_nil in Hty. }
  destruct Hrate as (rate & Hrate). rewrite Hrate.
  assert (Hdist : (if JSMath.truthyR (Ride.estimatedDistance ride)
                   then Ride.estimatedDistance ride else 0%R)
                  = Ride.estimatedDistance ride).
  { unfold JSMath.truthyR. destruct (Req_EM_T _ 0) as [->|]; reflexivity. }
  rewrite Hdist.
  assert (Hfare : (25 / 10 + Ride.estimatedDistance ride * rate)%R
                  = Ride.estimatedFare ride).
  { rewrite Hest. unfold RideService.calculateEstimatedFare.
    rewrite <- perKmRates_same, Hrate. reflexivity. }
  eexists. split; [reflexivity|]. cbn [baseFare distanceFare surgeMultiplier surgeAmount
                                        platformFee taxAmount totalAmount].
  rewrite Hfare, peak_hours.
  split; [reflexivity|]. split; [reflexivity|]. split; [reflexivity|].
  split; [reflexivity|]. split; [|repeat split; reflexivity].
  intros Hoff. rewrite (bool_decide_eq_false_2 _ Hoff). lra.
Qed.

Lemma settled_fare_from_estimate_witness :
  ∃ fb,
    calculateFare (λ x, x) 18 "r1" requestedDb = Some (createResponse 200 (Fare fb)) ∧
    (baseFare fb + distanceFare fb)%R = (25 / 10)%R ∧
    surgeMultiplier fb = (15 / 10)%R.
Proof.
  destruct (settled_fare_from_estimate (λ x, x) 18 "r1" requestedDb
              (demoRide "r1" "u1" None "requested"))
    as (fb & Hfb & _ & Hsum & Hsurge & _).
  - reflexivity.
  - compute_done.
  - unfold RideService.calculateEstimatedFare. simpl. lra.
  - exists fb. split; [exact Hfb|]. split; [exact Hsum | exact Hsurge].
Defined.

End PaymentFacts.

(** ** The browser client: reconnecting *)

Module ClientFacts.
Import WebSocketClient Examples MoreExamples.

Lemma closes_from k codes c :
  Forall (λ code, code ≠ 1000%Z) codes →
  reconnectAttempts c = k →
  reconnectAttempts (closes codes c).1 = (k + length codes) `min` (k `max` 5) ∧
  (closes codes c).2
  = (λ i, (1000 * 2 ^ Z.of_nat i)%Z) <$> seq k ((length codes) `min` (5 - k)).
Proof.
  intros Hall. revert k c. induction Hall as [|code codes Hcode _ IH]; intros k c Hk.
  - simpl. split; [lia|]. reflexivity.
  - cbn [closes]. unfold onclose.
    assert (Hne : negb (code =? 1000)%Z = true)
      by (destruct (Z.eqb_spec code 1000); [contradiction|reflexivity]).
    rewrite Hne. cbn [andb reconnectAttempts]. rewrite Hk.
    destruct (Nat.ltb_spec k maxReconnectAttempts) as [Hlt|Hge];
      unfold maxReconnectAttempts in *.
    + unfold scheduleReconnect. cbn [reconnectAttempts hasSocket isConnected pinging].
      destruct (IH (S k) (mkClient (hasSocket c) false (S k) false) eq_refl) as [Ha Hd].
      destruct (closes codes _) as [c2 ds]. cbn [fst snd] in *. split; [cbn [length]; lia|].
      rewrite Hd. cbn [length from_option].
      replace (S (length codes) `min` (5 - k)) with (S (length codes `min` (5 - S k))) by lia.
      cbn [seq fmap list_fmap app].
      replace (Z.of_nat (S k) - 1)%Z with (Z.of_nat k) by lia. reflexivity.
    + destruct (IH k (mkClient (hasSocket c) false k false) eq_refl) as [Ha Hd].
      destruct (closes codes _) as [c2 ds]. cbn [fst snd] in *. split; [cbn [length]; lia|].
      rewrite Hd. cbn [length from_option app]. replace (5 - k) with 0 by lia.
      by rewrite !Nat.min_0_r.
Qed.

(** X26. Starting from no failed attempt, a run of abnormal closes (any
    code but 1000) with no successful open in between schedules reconnects
    after 1, 2, 4, 8 and 16 seconds, one per close, and then none: the
    attempt counter stops at 5.  A successful open resets the counter, and a
    normal close (code 1000) schedules nothing. *)
Theorem reconnect_backoff codes c :
  Forall (λ code, code ≠ 1000%Z) codes →
  reconnectAttempts c = 0 →
  (closes codes c).2 = take (length codes) [1000; 2000; 4000; 8000; 16000]%Z ∧
  reconnectAttempts (closes codes c).1 = length codes `min` 5 ∧
  reconnectAttempts (onopen (closes codes c).1) = 0 ∧
  onclose 1000 c = (mkClient (hasSocket c) false 0 false, None).
Proof.
  intros Hall H0. destruct (closes_from 0 codes c Hall H0) as [Ha Hd].
  split.
  { rewrite Hd. destruct (length codes) as [|[|[|[|[|n]]]]]; try reflexivity.
    replace (S (S (S (S (S n)))) `min` (5 - 0)) with 5 by lia.
    rewrite take_ge by (simpl; lia). reflexivity. }
  split; [rewrite Ha; lia|].
  split; [reflexivity|]. unfold onclose. simpl. by rewrite H0.
Qed.

Lemma reconnect_backoff_witness :
  (closes [1006; 1006; 1001; 1006; 1006; 1006; 1006]%Z freshClient).2
  = [1000; 2000; 4000; 8000; 16000]%Z ∧
  reconnectAttempts (closes [1006; 1006; 1001; 1006; 1006; 1006; 1006]%Z freshClient).1 = 5.
Proof.
  destruct (reconnect_backoff [1006; 1006; 1001; 1006; 1006; 1006; 1006]%Z freshClient)
    as (Hd & Ha & _).
  - repeat (constructor; [discriminate|]). constructor.
  - reflexivity.
  - split; [exact Hd | exact Ha].
Defined.

End ClientFacts.
